(** * UserManage/UserRepository.py: the validated [User] entity, its record
      mapper and the repository operations.

    The Python module keeps a [User] entity whose fields are written through
    validating property setters, a [UserRepoMapper] between entities and
    flat records, and a [Repository] that builds SQL text, opens one SQLite
    connection per statement and maps the fetched rows back.

    Python values are dynamically typed, so a field, a record entry or a
    stored column holds a [value]: [None], an [int], a finite number that
    is not an [int], or a [str] (a [str] is a [string] here: its characters
    are the code points below 256). Exceptions are results ([Raise]); code
    that touches the database threads a [world] (the committed store, the
    open connection's view, and the log of connection events).

    SQLite is reached through statement text only. The engine below reads
    the statements the repository builds (a SELECT, UPDATE or DELETE on one
    table with at most one equality in its WHERE clause); what [execute]
    answers to any other text is left to the platform.

    [Repository.add_one] is not part of the development: the source has no
    schema, and what an INSERT does depends on it. *)

From Stdlib Require Import ZArith QArith String Ascii List Bool Lia.
From Stdlib Require Import DecimalString DecimalZ.
From stdpp Require Import base option list strings gmap.

Local Open Scope string_scope.
Local Open Scope list_scope.
Local Open Scope Z_scope.

(** Statement text is built by concatenation; let [simpl] compute it. *)
#[local] Arguments String.append !s1 s2 : simpl nomatch.

(** ** Python values and exceptions *)

(** [VNum] stands for a finite number that is not an [int] object (a float,
    a Fraction), by its exact rational value: Python orders such a number
    against an [int] exactly. *)
Inductive value :=
| VNone
| VInt (z : Z)
| VNum (q : Q)
| VStr (s : string).

(** [LookupError] is the common base of [KeyError] (a dict without the key)
    and [IndexError] (a [sqlite3.Row] without the column);
    [OperationalError] is sqlite3's failure to prepare or run a statement,
    [ProgrammingError] its refusal of a call (a statement text with a null
    character, a wrong number of parameters, a closed connection),
    [OverflowError] Python's, for an [int] that does not fit a 64-bit
    column value; [OtherError] is any other exception, by its name. *)
Inductive exn :=
| ValueError
| TypeError
| LookupError
| OperationalError
| ProgrammingError
| OverflowError
| OtherError (name : string).

Inductive outcome (A : Type) :=
| Ok (a : A)
| Raise (e : exn).
Arguments Ok {A} a.
Arguments Raise {A} e.

Definition obind {A B} (m : outcome A) (k : A -> outcome B) : outcome B :=
  match m with
  | Ok a => k a
  | Raise e => Raise e
  end.

Notation "x <~ m ;; k" := (obind m (fun x => k))
  (at level 100, m at next level, right associativity).

(** A record: a Python dict (or a [sqlite3.Row]) from column names to
    values, in insertion order. *)
Definition record := list (string * value).

(** Modelled from the spec: the schema of an entity table, for which the
    source has no CREATE TABLE. The spec gives the columns: [uuid], the
    mapper's keys, and a [deleted] flag. [uuid] and the mapped string
    fields are TEXT columns, [user_type] and [deleted] INTEGER columns. *)
Record row := mkRow {
  c_uuid : value;
  c_user_name : value;
  c_email : value;
  c_last_login_ip : value;
  c_user_type : value;
  c_deleted : value
}.

(** A database file: its tables by name, each a list of rows in scan
    order. *)
Abbreviation database := (gmap string (list row)).

(** What the development leaves to the Python runtime and to SQLite:
    - [ip_address v]: whether [ipaddress.ip_address(v)] returns (it raises
      [ValueError] otherwise);
    - [unicode_word c]: whether [\w] holds of a character outside ASCII;
    - [str_of_num q]: [str()] of a number that is not an [int];
    - [reserved_word w]: whether SQLite refuses the (upper-case) word [w]
      as a bare identifier;
    - [real_text s]: the number SQLite reads in a text that is not the
      decimal form of a 64-bit integer, when it compares the text with a
      numeric column (an integer beyond 64 bits is read as a REAL);
    - [affinity_cast col v]: the value SQLite keeps when [v] is written to
      column [col] (type affinity);
    - [self_resolved w]: whether SQLite resolves the name [w] in a
      statement although the file has no table of that name (the schema
      tables, a table-valued function, an eponymous virtual table);
    - [foreign_statement q ps db]: what [execute] answers, and the view of
      the connection afterwards, for a statement outside those the engine
      below reads: another shape of statement, a comment, a character
      outside a literal that the scanner does not know, a parameter that
      is not an [int], a [str] or [None], a column outside the schema. *)
Class Platform := {
  ip_address : value -> bool;
  unicode_word : ascii -> bool;
  str_of_num : Q -> string;
  reserved_word : string -> bool;
  real_text : string -> option value;
  affinity_cast : string -> value -> value;
  self_resolved : string -> bool;
  foreign_statement :
    string -> list value -> database -> outcome (list record) * database
}.

(** ** Regular expressions, as [re.match] decides them *)

Module Re.

Inductive regex :=
| Void
| Eps
| Class (p : ascii -> bool)
| Cat (r1 r2 : regex)
| Alt (r1 r2 : regex)
| Star (r : regex).

(** [r+] *)
Definition Plus (r : regex) : regex := Cat r (Star r).

Inductive matches : regex -> string -> Prop :=
| MEps : matches Eps ""
| MClass p c : p c = true -> matches (Class p) (String c "")
| MCat r1 r2 s1 s2 :
    matches r1 s1 -> matches r2 s2 -> matches (Cat r1 r2) (s1 +:+ s2)
| MAltL r1 r2 s : matches r1 s -> matches (Alt r1 r2) s
| MAltR r1 r2 s : matches r2 s -> matches (Alt r1 r2) s
| MStar0 r : matches (Star r) ""
| MStarS r s1 s2 :
    matches r s1 -> matches (Star r) s2 -> matches (Star r) (s1 +:+ s2).

Fixpoint nullable (r : regex) : bool :=
  match r with
  | Void => false
  | Eps => true
  | Class _ => false
  | Cat r1 r2 => nullable r1 && nullable r2
  | Alt r1 r2 => nullable r1 || nullable r2
  | Star _ => true
  end.

Fixpoint deriv (c : ascii) (r : regex) : regex :=
  match r with
  | Void => Void
  | Eps => Void
  | Class p => if p c then Eps else Void
  | Cat r1 r2 =>
      if nullable r1 then Alt (Cat (deriv c r1) r2) (deriv c r2)
      else Cat (deriv c r1) r2
  | Alt r1 r2 => Alt (deriv c r1) (deriv c r2)
  | Star r1 => Cat (deriv c r1) (Star r1)
  end.

(** [$] without MULTILINE: the end of the string, or just before a newline
    that ends the string. *)
Definition at_dollar (s : string) : bool :=
  match s with
  | "" => true
  | String c "" => Ascii.eqb c "010"
  | _ => false
  end.

(** [re.match('^' r '$', s)] finds a match: some prefix of [s] is in the
    language of [r] and [$] holds where the prefix ends. *)
Fixpoint match_dollar (r : regex) (s : string) : bool :=
  (nullable r && at_dollar s)
  || match s with
     | "" => false
     | String c s' => match_dollar (deriv c r) s'
     end.

End Re.

(** ** Characters and [str()] *)

Definition code (c : ascii) : N := N_of_ascii c.

Definition in_range (lo hi : N) (c : ascii) : bool :=
  ((lo <=? code c) && (code c <=? hi))%N.

Definition ascii_digit (c : ascii) : bool := in_range 48 57 c.

(** ASCII letters, digits and the underscore. *)
Definition ascii_word (c : ascii) : bool :=
  in_range 97 122 c || in_range 65 90 c || ascii_digit c || Ascii.eqb c "_".

Fixpoint all_chars (p : ascii -> bool) (s : string) : bool :=
  match s with
  | "" => true
  | String c s' => p c && all_chars p s'
  end.

(** [str(z)] of an [int]: decimal digits, a leading minus sign when
    negative. *)
Definition str_int (z : Z) : string := NilZero.string_of_int (Z.to_int z).

Definition int_of_text (s : string) : option Z :=
  option_map Z.of_int (NilZero.int_of_string s).

(** [v < n] and [v > n] against an [int] literal; Python 3 refuses to order
    a string or [None] against a number. *)
Definition py_lt (v : value) (n : Z) : outcome bool :=
  match v with
  | VInt z => Ok (z <? n)
  | VNum q => Ok (negb (Qle_bool (inject_Z n) q))
  | VNone | VStr _ => Raise TypeError
  end.

Definition py_gt (v : value) (n : Z) : outcome bool :=
  match v with
  | VInt z => Ok (n <? z)
  | VNum q => Ok (negb (Qle_bool q (inject_Z n)))
  | VNone | VStr _ => Raise TypeError
  end.

Fixpoint record_get (r : record) (key : string) : outcome value :=
  match r with
  | [] => Raise LookupError
  | (k, v) :: r' => if String.eqb k key then Ok v else record_get r' key
  end.

Section Entities.
Context `{Platform}.

Definition py_str (v : value) : string :=
  match v with
  | VNone => "None"
  | VInt z => str_int z
  | VNum q => str_of_num q
  | VStr s => s
  end.

(** [\w] on a [str] pattern. *)
Definition is_word (c : ascii) : bool :=
  if (code c <? 128)%N then ascii_word c else unicode_word c.

(** [[\w\.-]] *)
Definition is_word_dot_dash (c : ascii) : bool :=
  is_word c || Ascii.eqb c "." || Ascii.eqb c "-".

(** The body of [r'^[\w\.-]+@[\w\.-]+\.\w+$'] between its anchors. *)
Definition email_pattern : Re.regex :=
  Re.Cat (Re.Plus (Re.Class is_word_dot_dash))
    (Re.Cat (Re.Class (Ascii.eqb "@"))
       (Re.Cat (Re.Plus (Re.Class is_word_dot_dash))
          (Re.Cat (Re.Class (Ascii.eqb "."))
             (Re.Plus (Re.Class is_word))))).

(** [re.match(r'^[\w\.-]+@[\w\.-]+\.\w+$', value)] as a truth value;
    [re.match] raises [TypeError] on anything but a string. *)
Definition re_match_email (v : value) : outcome bool :=
  match v with
  | VStr s => Ok (Re.match_dollar email_pattern s)
  | _ => Raise TypeError
  end.

(** *** class User(Entity) *)

Record User := mkUser {
  entity_uuid_ : value;
  user_name_ : value;
  email_ : value;
  last_login_ip_ : value;
  user_type_ : value
}.

Definition with_entity_uuid (v : value) (u : User) : User :=
  mkUser v (user_name_ u) (email_ u) (last_login_ip_ u) (user_type_ u).
Definition with_user_name (v : value) (u : User) : User :=
  mkUser (entity_uuid_ u) v (email_ u) (last_login_ip_ u) (user_type_ u).
Definition with_email (v : value) (u : User) : User :=
  mkUser (entity_uuid_ u) (user_name_ u) v (last_login_ip_ u) (user_type_ u).
Definition with_last_login_ip (v : value) (u : User) : User :=
  mkUser (entity_uuid_ u) (user_name_ u) (email_ u) v (user_type_ u).
Definition with_user_type (v : value) (u : User) : User :=
  mkUser (entity_uuid_ u) (user_name_ u) (email_ u) (last_login_ip_ u) v.

(** The checks the property setters run before they store. *)

Definition email_guard (value : value) : outcome unit :=
  m <~ re_match_email value ;;
  if negb m then Raise ValueError else Ok tt.

Definition last_login_ip_guard (value : value) : outcome unit :=
  if ip_address value then Ok tt else Raise ValueError.

Definition user_type_guard (value : value) : outcome unit :=
  low <~ py_lt value 1 ;;
  out <~ (if low then Ok true else py_gt value 3) ;;
  if out then Raise ValueError else Ok tt.

(** A setter runs on the object: it returns normally or raises, and leaves
    the object behind. An exception is raised before the attribute is
    written. *)
Definition assign (guard : outcome unit) (store : User -> User)
    (self : User) : outcome unit * User :=
  match guard with
  | Ok _ => (Ok tt, store self)
  | Raise e => (Raise e, self)
  end.

Definition set_entity_uuid (value : value) : User -> outcome unit * User :=
  assign (Ok tt) (with_entity_uuid value).

Definition set_user_name (value : value) : User -> outcome unit * User :=
  assign (Ok tt) (with_user_name value).

Definition set_email (value : value) : User -> outcome unit * User :=
  assign (email_guard value) (with_email value).

Definition set_last_login_ip (value : value) : User -> outcome unit * User :=
  assign (last_login_ip_guard value) (with_last_login_ip value).

Definition set_user_type (value : value) : User -> outcome unit * User :=
  assign (user_type_guard value) (with_user_type value).

(** One assignment after another, on the same object; an exception ends
    the sequence. *)
Definition and_then (m1 m2 : User -> outcome unit * User)
  : User -> outcome unit * User :=
  fun self =>
    match m1 self with
    | (Ok _, self') => m2 self'
    | (Raise e, self') => (Raise e, self')
    end.

(** The object [__init__] receives has no attribute yet. The placeholders
    are never read: the constructor returns only when the five setters have
    written the five fields. *)
Definition blank : User := mkUser VNone VNone VNone VNone VNone.

(** [User.__init__]: [super().__init__(user_uuid)] assigns the uuid, then
    the four assignments in source order, each through its setter. *)
Definition User_init (user_uuid user_name email last_login_ip user_type : value)
  : outcome User :=
  match
    and_then (set_entity_uuid user_uuid)
      (and_then (set_user_name user_name)
         (and_then (set_email email)
            (and_then (set_last_login_ip last_login_ip)
               (set_user_type user_type)))) blank
  with
  | (Ok _, self) => Ok self
  | (Raise e, _) => Raise e
  end.

(** *** class RepoMapper / class UserRepoMapper *)

Class Entity (E : Type) := { entity_uuid : E -> value }.

Class RepoMapper (E : Type) := {
  map_from_repo : record -> outcome E;
  map_to_repo : E -> record
}.

#[export] Instance User_Entity : Entity User := {| entity_uuid := entity_uuid_ |}.

(** The five subscripts are evaluated left to right before [User(...)] is
    called. *)
Definition User_map_from_repo (record : record) : outcome User :=
  uuid <~ record_get record "uuid" ;;
  user_name <~ record_get record "user_name" ;;
  email <~ record_get record "email" ;;
  last_login_ip <~ record_get record "last_login_ip" ;;
  user_type <~ record_get record "user_type" ;;
  User_init uuid user_name email last_login_ip user_type.

Definition User_map_to_repo (entity : User) : record :=
  [ ("uuid", entity_uuid_ entity);
    ("user_name", user_name_ entity);
    ("email", email_ entity);
    ("last_login_ip", last_login_ip_ entity);
    ("user_type", user_type_ entity) ].

#[export] Instance UserRepoMapper : RepoMapper User :=
  {| map_from_repo := User_map_from_repo; map_to_repo := User_map_to_repo |}.

End Entities.

(** ** The SQLite side

    The source reaches SQLite through [sqlite3] only: it sends statement
    text and reads rows back. The engine below serves the statement shapes
    the repository sends (select by a column, update by key, delete by
    key) and says so when a text is outside them. Python's integers are
    unbounded, SQLite's are 64-bit. *)

(** What [SELECT *] hands to [sqlite3.Row]. *)
Definition row_record (r : row) : record :=
  [ ("uuid", c_uuid r);
    ("user_name", c_user_name r);
    ("email", c_email r);
    ("last_login_ip", c_last_login_ip r);
    ("user_type", c_user_type r);
    ("deleted", c_deleted r) ].

Definition col_get (col : string) (r : row) : option value :=
  if String.eqb col "uuid" then Some (c_uuid r)
  else if String.eqb col "user_name" then Some (c_user_name r)
  else if String.eqb col "email" then Some (c_email r)
  else if String.eqb col "last_login_ip" then Some (c_last_login_ip r)
  else if String.eqb col "user_type" then Some (c_user_type r)
  else if String.eqb col "deleted" then Some (c_deleted r)
  else None.

Definition col_set (col : string) (v : value) (r : row) : row :=
  if String.eqb col "uuid" then
    mkRow v (c_user_name r) (c_email r) (c_last_login_ip r) (c_user_type r) (c_deleted r)
  else if String.eqb col "user_name" then
    mkRow (c_uuid r) v (c_email r) (c_last_login_ip r) (c_user_type r) (c_deleted r)
  else if String.eqb col "email" then
    mkRow (c_uuid r) (c_user_name r) v (c_last_login_ip r) (c_user_type r) (c_deleted r)
  else if String.eqb col "last_login_ip" then
    mkRow (c_uuid r) (c_user_name r) (c_email r) v (c_user_type r) (c_deleted r)
  else if String.eqb col "user_type" then
    mkRow (c_uuid r) (c_user_name r) (c_email r) (c_last_login_ip r) v (c_deleted r)
  else if String.eqb col "deleted" then
    mkRow (c_uuid r) (c_user_name r) (c_email r) (c_last_login_ip r) (c_user_type r) v
  else r.

Definition known_col (col : string) : bool :=
  existsb (String.eqb col)
    ["uuid"; "user_name"; "email"; "last_login_ip"; "user_type"; "deleted"].

(** Modelled from the spec: the columns declared as integers ([userType] is
    an integer, [deleted] a flag); the others are text. *)
Definition integer_col (col : string) : bool :=
  String.eqb col "user_type" || String.eqb col "deleted".

(** *** Statement text *)

Inductive token :=
| TWord (w : string)
| TText (s : string)
| TSym (c : ascii).

(** [LOther]: a character has been read outside any literal that the
    scanner does not know (the start of a comment, a semicolon, a double
    quote, a line break, ...); the text is then not one of those read
    here, whatever follows. *)
Inductive lex_state :=
| LIdle
| LWord (w : string)
| LText (s : string)
| LQuote (s : string)
| LOther.

Definition is_quote (c : ascii) : bool := Ascii.eqb c "'".
Definition is_space (c : ascii) : bool := Ascii.eqb c " ".
Definition is_nul (c : ascii) : bool := Ascii.eqb c "000".

(** The punctuation of the statements read here. *)
Definition is_symbol (c : ascii) : bool :=
  Ascii.eqb c "*" || Ascii.eqb c "=" || Ascii.eqb c "," || Ascii.eqb c "?".

Definition snoc (s : string) (c : ascii) : string := s +:+ String c "".

(** One character read outside any word or literal: the tokens it completes
    and the state it leaves. *)
Definition lex_idle (c : ascii) : list token * lex_state :=
  if is_quote c then ([], LText "")
  else if is_space c then ([], LIdle)
  else if ascii_word c then ([], LWord (String c ""))
  else if is_symbol c then ([TSym c], LIdle)
  else ([], LOther).

(** Words are runs of ASCII letters, digits and underscores; a text literal
    runs from a quote to the next quote that is not doubled (a doubled quote
    is one quote character of the literal). *)
Definition lex_step (st : lex_state) (c : ascii) : list token * lex_state :=
  match st with
  | LIdle => lex_idle c
  | LWord w =>
      if ascii_word c then ([], LWord (snoc w c))
      else let '(out, st') := lex_idle c in (TWord w :: out, st')
  | LText t =>
      if is_quote c then ([], LQuote t) else ([], LText (snoc t c))
  | LQuote t =>
      if is_quote c then ([], LText (snoc t c))
      else let '(out, st') := lex_idle c in (TText t :: out, st')
  | LOther => ([], LOther)
  end.

(** What the scanner makes of a text: its tokens; a text literal left open
    at the end of a text that is otherwise words, literals and known
    punctuation, which SQLite refuses; or a text it does not read. *)
Inductive lexed :=
| Tokens (toks : list token)
| Unterminated
| Unread.

Definition lexed_after (out : list token) (l : lexed) : lexed :=
  match l with
  | Tokens toks => Tokens (out ++ toks)
  | Unterminated => Unterminated
  | Unread => Unread
  end.

(** The end of the text closes a word or a literal whose closing quote has
    been read. *)
Definition lex_end (st : lex_state) : lexed :=
  match st with
  | LIdle => Tokens []
  | LWord w => Tokens [TWord w]
  | LText _ => Unterminated
  | LQuote t => Tokens [TText t]
  | LOther => Unread
  end.

Fixpoint lex (st : lex_state) (s : string) : lexed :=
  match s with
  | "" => lex_end st
  | String c s' =>
      let '(out, st') := lex_step st c in
      lexed_after out (lex st' s')
  end.

(** The tokens completed and the state reached along a prefix of the
    text. *)
Fixpoint lex_steps (st : lex_state) (p : string) : list token * lex_state :=
  match p with
  | "" => ([], st)
  | String c p' =>
      let '(out, st') := lex_step st c in
      let '(out', st'') := lex_steps st' p' in
      (out ++ out', st'')
  end.

Inductive operand :=
| OText (s : string)
| OInt (z : Z)
| OParam.

Abbreviation condition := (option (string * operand)).

Inductive stmt :=
| Select (tbl : string) (wh : condition)
| Update (tbl : string) (sets : list (string * operand)) (wh : condition)
| Delete (tbl : string) (wh : condition).

Definition upper_char (c : ascii) : ascii :=
  if in_range 97 122 c then ascii_of_N (code c - 32) else c.

Fixpoint upper (s : string) : string :=
  match s with
  | "" => ""
  | String c s' => String (upper_char c) (upper s')
  end.

(** Keywords are recognised in any letter case. *)
Definition kw (k w : string) : bool := String.eqb (upper w) k.

(** SQLite's integers: 64 bits, signed. *)
Definition int64 (z : Z) : bool := (- 2 ^ 63 <=? z) && (z <? 2 ^ 63).

(** An integer literal is read as an integer when it fits 64 bits. *)
Definition parse_operand (t : token) : option operand :=
  match t with
  | TText s => Some (OText s)
  | TWord w =>
      match int_of_text w with
      | Some z => if int64 z then Some (OInt z) else None
      | None => None
      end
  | TSym c => if Ascii.eqb c "?" then Some OParam else None
  end.

Definition parse_where (toks : list token) : option condition :=
  match toks with
  | [] => Some None
  | [TWord w; TWord col; TSym e; t] =>
      if kw "WHERE" w && Ascii.eqb e "=" then
        match parse_operand t with
        | Some op => Some (Some (col, op))
        | None => None
        end
      else None
  | _ => None
  end.

Fixpoint parse_sets (toks : list token)
  : option (list (string * operand) * list token) :=
  match toks with
  | TWord col :: TSym e :: t :: rest =>
      if Ascii.eqb e "=" then
        match parse_operand t with
        | Some op =>
            match rest with
            | TSym c :: rest' =>
                if Ascii.eqb c "," then
                  match parse_sets rest' with
                  | Some (sets, tl) => Some ((col, op) :: sets, tl)
                  | None => None
                  end
                else Some ([(col, op)], rest)
            | _ => Some ([(col, op)], rest)
            end
        | None => None
        end
      else None
  | _ => None
  end.

Section Statements.
Context `{Platform}.

(** A bare table name: an ASCII word that does not start with a digit and
    is not reserved. *)
Definition sql_identifier (w : string) : bool :=
  match w with
  | "" => false
  | String c _ =>
      negb (ascii_digit c) && all_chars ascii_word w
      && negb (reserved_word (upper w))
  end.

Definition table_name_of (w : string) : option string :=
  if sql_identifier w then Some w else None.

Definition parse (toks : list token) : option stmt :=
  match toks with
  | TWord k :: rest =>
      if kw "SELECT" k then
        match rest with
        | TSym s :: TWord f :: TWord tbl :: rest' =>
            if Ascii.eqb s "*" && kw "FROM" f then
              match table_name_of tbl, parse_where rest' with
              | Some t, Some wh => Some (Select t wh)
              | _, _ => None
              end
            else None
        | _ => None
        end
      else if kw "UPDATE" k then
        match rest with
        | TWord tbl :: TWord s :: rest' =>
            if kw "SET" s then
              match table_name_of tbl, parse_sets rest' with
              | Some t, Some (sets, tl) =>
                  option_map (Update t sets) (parse_where tl)
              | _, _ => None
              end
            else None
        | _ => None
        end
      else if kw "DELETE" k then
        match rest with
        | TWord f :: TWord tbl :: rest' =>
            if kw "FROM" f then
              match table_name_of tbl, parse_where rest' with
              | Some t, Some wh => Some (Delete t wh)
              | _, _ => None
              end
            else None
        | _ => None
        end
      else None
  | _ => None
  end.

(** The statement a text is read as, if it is one of those read here. *)
Definition parse_sql (text : string) : option stmt :=
  match lex LIdle text with
  | Tokens toks => parse toks
  | Unterminated | Unread => None
  end.

(** The text ends inside a text literal, and is otherwise made of words,
    literals and known punctuation: SQLite cannot prepare it. *)
Definition unterminated (text : string) : bool :=
  match lex LIdle text with
  | Unterminated => true
  | Tokens _ | Unread => false
  end.

End Statements.

(** *** Running a statement *)

Section Engine.
Context `{Platform}.

Definition is_numeric (v : value) : bool :=
  match v with
  | VInt _ | VNum _ => true
  | _ => false
  end.

Definition num_eq (a b : value) : bool :=
  match a, b with
  | VInt x, VInt y => x =? y
  | VInt x, VNum q | VNum q, VInt x => Qeq_bool (inject_Z x) q
  | VNum p, VNum q => Qeq_bool p q
  | _, _ => false
  end.

Definition text_eq (a : value) (s : string) : bool :=
  match a with
  | VStr t => String.eqb t s
  | _ => false
  end.

(** The number a text literal stands for when it meets a numeric column:
    the integer it spells when that fits 64 bits. *)
Definition numeric_text (s : string) : option value :=
  match int_of_text s with
  | Some z => if int64 z then Some (VInt z) else real_text s
  | None => real_text s
  end.

(** [col = literal] on a stored value. The column's affinity decides how
    the literal is read; NULL equals nothing. *)
Definition sql_eq (col : string) (stored : value) (op : operand) : bool :=
  match op with
  | OText s =>
      if integer_col col then
        match numeric_text s with
        | Some n => num_eq stored n
        | None => text_eq stored s
        end
      else text_eq stored s
  | OInt z =>
      if integer_col col then num_eq stored (VInt z)
      else text_eq stored (str_int z)
  | OParam => false
  end.

Definition holds (wh : condition) (r : row) : bool :=
  match wh with
  | None => true
  | Some (col, op) =>
      match col_get col r with
      | Some v => sql_eq col v op
      | None => false
      end
  end.

(** The WHERE clause is one the engine reads: a column of the schema, under
    the name the schema gives it, against a literal. *)
Definition where_ok (wh : condition) : bool :=
  match wh with
  | None => true
  | Some (col, op) =>
      known_col col && match op with OParam => false | _ => true end
  end.

Definition sets_ok (sets : list (string * operand)) : bool :=
  forallb (fun '(col, _) => known_col col) sets.

(** Binding the [?] of a SET clause to the parameters, in order; there must
    be as many parameters as [?]. *)
Fixpoint bind_sets (sets : list (string * operand)) (params : list value)
  : option (list (string * value)) :=
  match sets with
  | [] => match params with [] => Some [] | _ => None end
  | (col, op) :: sets' =>
      match op with
      | OParam =>
          match params with
          | p :: params' =>
              option_map (cons (col, p)) (bind_sets sets' params')
          | [] => None
          end
      | OInt z => option_map (cons (col, VInt z)) (bind_sets sets' params)
      | OText s => option_map (cons (col, VStr s)) (bind_sets sets' params)
      end
  end.

(** The value a column keeps: a value already of the column's storage
    class, and NULL, are kept as they are. *)
Definition store_cast (col : string) (v : value) : value :=
  match v with
  | VNone => VNone
  | VInt _ => if integer_col col then v else affinity_cast col v
  | VStr _ => if integer_col col then affinity_cast col v else v
  | VNum _ => affinity_cast col v
  end.

Definition apply_sets (assigns : list (string * value)) (r : row) : row :=
  fold_left (fun r' '(col, v) => col_set col (store_cast col v) r') assigns r.

(** What the engine answers: the connection's view afterwards and the rows
    the statement yields; an exception; or that the matter is outside what
    it reads. *)
Inductive answer :=
| Done (db : database) (rows : list row)
| Fails (e : exn)
| Foreign.

(** Table names are compared without regard to (ASCII) letter case: the
    table under the name as written, or else one whose name differs from
    it in case only, with the name it is kept under. *)
Definition same_name (a b : string) : bool := String.eqb (upper a) (upper b).

Definition find_table (db : database) (tbl : string)
  : option (string * list row) :=
  match db !! tbl with
  | Some rows => Some (tbl, rows)
  | None => List.find (fun kv => same_name (fst kv) tbl) (map_to_list db)
  end.

(** A name the file has no table for: SQLite may still resolve it; if not,
    the statement is not prepared. *)
Definition no_table (tbl : string) : answer :=
  if self_resolved tbl then Foreign else Fails OperationalError.

(** What sqlite3 binds as it is: [None], a [str], an [int] of the 64-bit
    range. *)
Definition bindable (v : value) : bool :=
  match v with
  | VNone | VStr _ => true
  | VInt z => int64 z
  | VNum _ => false
  end.

(** The parameters are bound in order, once the statement is prepared and
    their number is right: an [int] beyond 64 bits raises [OverflowError];
    what becomes of a number that is not an [int] (a float is bound, a
    Fraction is not) is not decided here. *)
Fixpoint bind_params (params : list value) (k : answer) : answer :=
  match params with
  | [] => k
  | VInt z :: params' =>
      if int64 z then bind_params params' k else Fails OverflowError
  | VNum _ :: _ => Foreign
  | (VNone | VStr _) :: params' => bind_params params' k
  end.

(** A statement is prepared against the schema before any parameter is
    bound and any row is read. *)
Definition run (s : stmt) (params : list value) (db : database) : answer :=
  match s with
  | Select tbl wh =>
      if where_ok wh then
        match find_table db tbl with
        | Some (_, rows) =>
            match params with
            | [] => Done db (List.filter (holds wh) rows)
            | _ :: _ => Fails ProgrammingError
            end
        | None => no_table tbl
        end
      else Foreign
  | Update tbl sets wh =>
      if where_ok wh && sets_ok sets then
        match find_table db tbl with
        | Some (name, rows) =>
            match bind_sets sets params with
            | Some assigns =>
                bind_params params
                  (Done (<[name := map (fun r => if holds wh r
                                                 then apply_sets assigns r
                                                 else r) rows]> db) [])
            | None => Fails ProgrammingError
            end
        | None => no_table tbl
        end
      else Foreign
  | Delete tbl wh =>
      if where_ok wh then
        match find_table db tbl with
        | Some (name, rows) =>
            match params with
            | [] =>
                Done (<[name := List.filter (fun r => negb (holds wh r))
                                  rows]> db) []
            | _ :: _ => Fails ProgrammingError
            end
        | None => no_table tbl
        end
      else Foreign
  end.

End Engine.

(** ** sqlite3 connections *)

Inductive event :=
| EvConnect
| EvExecute (query : string) (params : list value)
| EvCommit
| EvClose.

(** [store] is the committed database file, [session] the view of the
    connection that is open (statements run on it, [commit] writes it
    back), [log] what has happened so far. *)
Record world := mkWorld {
  store : database;
  session : option database;
  log : list event
}.

Definition M (A : Type) : Type := world -> outcome A * world.

Definition ret {A} (a : A) : M A := fun w => (Ok a, w).

Definition bind {A B} (m : M A) (k : A -> M B) : M B :=
  fun w =>
    match m w with
    | (Ok a, w') => k a w'
    | (Raise e, w') => (Raise e, w')
    end.

Definition lift {A} (o : outcome A) : M A := fun w => (o, w).

Notation "x <- m ;; k" := (bind m (fun x => k))
  (at level 100, m at next level, right associativity).

Definition emit (e : event) (w : world) : world :=
  mkWorld (store w) (session w) (log w ++ [e]).

Section Repository.
Context `{Platform}.

(** [Repository.create_connection]: [sqlite3.connect('demo.db')]. *)
Definition create_connection : M unit :=
  fun w => (Ok tt, mkWorld (store w) (Some (store w)) (log w ++ [EvConnect])).

(** The statement text holds a null character. *)
Definition has_nul (text : string) : bool :=
  negb (all_chars (fun c => negb (is_nul c)) text).

(** What SQLite answers to a statement text and its parameters. *)
Definition sqlite_answer (query : string) (params : list value)
    (db : database) : answer :=
  match parse_sql query with
  | Some s => run s params db
  | None => if unterminated query then Fails OperationalError else Foreign
  end.

(** [cr.execute(query, params)]; the result is what the cursor then holds,
    a [sqlite3.Row] for each row. sqlite3 refuses a text with a null
    character before SQLite sees it. *)
Definition execute (query : string) (params : list value)
  : M (list record) :=
  fun w =>
    let w1 := emit (EvExecute query params) w in
    match session w with
    | Some db =>
        if has_nul query then (Raise ProgrammingError, w1)
        else
          match sqlite_answer query params db with
          | Done db' rows =>
              (Ok (map row_record rows),
               mkWorld (store w1) (Some db') (log w1))
          | Fails e => (Raise e, w1)
          | Foreign =>
              let '(res, db') := foreign_statement query params db in
              (res, mkWorld (store w1) (Some db') (log w1))
          end
    | None => (Raise ProgrammingError, w1)
    end.

Definition commit : M unit :=
  fun w =>
    let w1 := emit EvCommit w in
    match session w with
    | Some db => (Ok tt, mkWorld db (Some db) (log w1))
    | None => (Raise ProgrammingError, w1)
    end.

Definition close : M unit :=
  fun w => (Ok tt, mkWorld (store w) None (log w ++ [EvClose])).

(** [cr.fetchone()] and [cr.fetchall()] with [row_factory = sqlite3.Row]. *)
Definition fetchone (cr : list record) : option record := head cr.

Definition fetchall (cr : list record) : list record := cr.

Fixpoint map_outcome {A B} (f : A -> outcome B) (l : list A)
  : outcome (list B) :=
  match l with
  | [] => Ok []
  | a :: l' => b <~ f a ;; bs <~ map_outcome f l' ;; Ok (b :: bs)
  end.

(** *** class Repository *)

Context {E : Type} `{Entity E} `{RepoMapper E}.
Variable table_name : string.

(** [not x] on what [fetchone] returned: [None] and a row of no columns
    are false. *)
Definition falsy (fetched : option record) : bool :=
  match fetched with
  | None | Some [] => true
  | Some _ => false
  end.

Definition fetch_one_by_uuid (entity_uuid : value) : M (option E) :=
  let query :=
    "SELECT * FROM " +:+ table_name
      +:+ " WHERE uuid = '" +:+ py_str entity_uuid +:+ "'" in
  _ <- create_connection ;;
  cr <- execute query [] ;;
  let fetched_one_record := fetchone cr in
  _ <- close ;;
  if falsy fetched_one_record then ret None
  else
    match fetched_one_record with
    | Some r => e <- lift (map_from_repo r) ;; ret (Some e)
    | None => ret None
    end.

(** [if restored_entity:] holds of every entity object (an entity defines
    neither [__bool__] nor [__len__]) and fails of [None]. *)
Definition soft_delete_one_by_uuid (entity_uuid : value) : M (option E) :=
  restored_entity_for_soft_delete <- fetch_one_by_uuid entity_uuid ;;
  match restored_entity_for_soft_delete with
  | Some _ =>
      let query :=
        "UPDATE " +:+ table_name
          +:+ " SET deleted = 1 WHERE uuid = '" +:+ py_str entity_uuid +:+ "'" in
      _ <- create_connection ;;
      _ <- execute query [] ;;
      _ <- commit ;;
      _ <- close ;;
      ret restored_entity_for_soft_delete
  | None => ret restored_entity_for_soft_delete
  end.

Definition delete_one_by_uuid (entity_uuid : value) : M (option E) :=
  restored_entity_for_delete <- fetch_one_by_uuid entity_uuid ;;
  match restored_entity_for_delete with
  | Some _ =>
      let query :=
        "DELETE FROM " +:+ table_name
          +:+ " Where uuid = '" +:+ py_str entity_uuid +:+ "'" in
      _ <- create_connection ;;
      _ <- execute query [] ;;
      _ <- commit ;;
      _ <- close ;;
      ret restored_entity_for_delete
  | None => ret restored_entity_for_delete
  end.

(** The parameters are the mapped values under the keys of the SET clause,
    read when [execute] is called. *)
Definition update_one (entity : E) : M (option E) :=
  let entity_data := map_to_repo entity in
  let keys :=
    List.filter (fun k => negb (String.eqb k "uuid")) (map fst entity_data) in
  let set_values := String.concat ", " (map (fun key => key +:+ " = ?") keys) in
  let query :=
    "UPDATE " +:+ table_name +:+ " SET " +:+ set_values
      +:+ " WHERE uuid = '" +:+ py_str (entity_uuid entity) +:+ "'" in
  _ <- create_connection ;;
  params <- lift (map_outcome (record_get entity_data) keys) ;;
  _ <- execute query params ;;
  _ <- commit ;;
  _ <- close ;;
  fetch_one_by_uuid (entity_uuid entity).

(** *** UserRepository.fetch_users_by_user_type, on the repository's own
    mapper *)
Definition fetch_users_by_user_type (user_type : value) : M (list E) :=
  let query :=
    "SELECT * FROM " +:+ table_name
      +:+ " WHERE user_type = '" +:+ py_str user_type +:+ "'" in
  _ <- create_connection ;;
  cr <- execute query [] ;;
  let fetched_data := fetchall cr in
  _ <- close ;;
  lift (map_outcome map_from_repo fetched_data).

End Repository.

(** [UserRepository()]: table [user], the [UserRepoMapper]. *)
Definition UserRepository_table : string := "user".

(** ** Vocabulary of the statements *)

Section Vocabulary.
Context `{Platform}.

(** The string matches [^[\w\.-]+@[\w\.-]+\.\w+$] as Python reads it: a
    prefix in the language of the pattern, followed by the end of the
    string or by one final newline. *)
Definition email_matches (s : string) : Prop :=
  exists p t, s = p +:+ t /\ Re.matches email_pattern p
              /\ (t = "" \/ t = String "010" "").

(** The same, spelled out: a non-empty run of [[\w.-]], an at sign, a
    non-empty run of [[\w.-]], a dot, a non-empty run of [\w], and then
    nothing or one final newline. *)
Definition email_shape (s : string) : Prop :=
  exists l d t nl,
    s = l +:+ String "@" (d +:+ String "." (t +:+ nl))
    /\ l <> "" /\ all_chars is_word_dot_dash l = true
    /\ d <> "" /\ all_chars is_word_dot_dash d = true
    /\ t <> "" /\ all_chars is_word t = true
    /\ (nl = "" \/ nl = String "010" "").

(** The data model's word on the name: it is a string. No setter checks
    it. *)
Definition user_name_valid (v : value) : Prop := exists s, v = VStr s.

(** The validation the setters of the three other fields carry. *)
Definition email_valid (v : value) : Prop :=
  exists s, v = VStr s /\ email_matches s.

Definition last_login_ip_valid (v : value) : Prop := ip_address v = true.

Definition user_type_valid (v : value) : Prop :=
  match v with
  | VInt z => 1 <= z <= 3
  | VNum q => (1 <= q /\ q <= 3)%Q
  | _ => False
  end.

(** The exception a failed validation raises: [ValueError] on a value of
    the field's type, [TypeError] where the pattern match or the comparison
    itself refuses the value. *)
Definition validation_error (e : exn) : Prop := e = ValueError \/ e = TypeError.

Definition email_error (v : value) : exn :=
  match v with
  | VStr _ => ValueError
  | _ => TypeError
  end.

Definition user_type_error (v : value) : exn :=
  match v with
  | VInt _ | VNum _ => ValueError
  | _ => TypeError
  end.

(** The users a program can hold: built by the constructor, then written
    through the setters any number of times (a setter that raises leaves
    the object as it was). *)
Inductive constructed : User -> Prop :=
| constructed_init a b c d e u :
    User_init a b c d e = Ok u -> constructed u
| constructed_set_uuid v u :
    constructed u -> constructed (snd (set_entity_uuid v u))
| constructed_set_name v u :
    constructed u -> constructed (snd (set_user_name v u))
| constructed_set_email v u :
    constructed u -> constructed (snd (set_email v u))
| constructed_set_ip v u :
    constructed u -> constructed (snd (set_last_login_ip v u))
| constructed_set_type v u :
    constructed u -> constructed (snd (set_user_type v u)).

(** Every validated field holds a value that passes its guard. *)
Definition guards_pass (u : User) : Prop :=
  email_guard (email_ u) = Ok tt
  /\ last_login_ip_guard (last_login_ip_ u) = Ok tt
  /\ user_type_guard (user_type_ u) = Ok tt.

Definition has_key (r : record) (k : string) : Prop :=
  exists v, record_get r k = Ok v.

Definition User_keys : list string :=
  ["uuid"; "user_name"; "email"; "last_login_ip"; "user_type"].

(** An id that can stand between the quotes of a text literal as it is: it
    holds no quote character, and no null character, which sqlite3 refuses
    anywhere in a statement text. *)
Definition sql_plain (s : string) : bool :=
  all_chars (fun c => negb (is_quote c) && negb (is_nul c)) s.

(** The text [q] reaches SQLite and is read there as the statement [s]. *)
Definition reads (q : string) (s : stmt) : Prop :=
  has_nul q = false /\ parse_sql q = Some s.

(** The row's [uuid] is the text [id]; its [user_type] is the integer [t]. *)
Definition has_uuid (id : string) (r : row) : bool := text_eq (c_uuid r) id.

Definition has_user_type (t : Z) (r : row) : bool :=
  num_eq (c_user_type r) (VInt t).

Definition mark_deleted (r : row) : row :=
  mkRow (c_uuid r) (c_user_name r) (c_email r) (c_last_login_ip r)
    (c_user_type r) (VInt 1).

(** The statements the repository sends, as the tests expect them. *)
Definition select_by_uuid (tbl id : string) : string :=
  "SELECT * FROM " +:+ tbl +:+ " WHERE uuid = '" +:+ id +:+ "'".

Definition soft_delete_by_uuid (tbl id : string) : string :=
  "UPDATE " +:+ tbl +:+ " SET deleted = 1 WHERE uuid = '" +:+ id +:+ "'".

Definition delete_by_uuid (tbl id : string) : string :=
  "DELETE FROM " +:+ tbl +:+ " Where uuid = '" +:+ id +:+ "'".

Definition update_user_by_uuid (tbl id : string) : string :=
  "UPDATE " +:+ tbl
    +:+ " SET user_name = ?, email = ?, last_login_ip = ?, user_type = ?"
    +:+ " WHERE uuid = '" +:+ id +:+ "'".

Definition select_by_user_type (tbl : string) (t : Z) : string :=
  "SELECT * FROM " +:+ tbl +:+ " WHERE user_type = '" +:+ str_int t +:+ "'".

(** A row after [update_one] has written the four mapped fields of a
    user: the [uuid] and the [deleted] flag are not in the SET clause. *)
Definition updated_row (name em ip ty : value) (r : row) : row :=
  mkRow (c_uuid r) (store_cast "user_name" name) (store_cast "email" em)
    (store_cast "last_login_ip" ip) (store_cast "user_type" ty) (c_deleted r).

(** The world once the presence check has run: the store as it was, no
    connection left open, and the check's three events in the log. *)
Definition after_fetch (tbl id : string) (w : world) : world :=
  mkWorld (store w) None
    (log w ++ [EvConnect; EvExecute (select_by_uuid tbl id) []; EvClose]).

End Vocabulary.

(** ** More of the repository *)

Section RepositoryScan.
Context `{Platform} {E : Type} `{Entity E} `{RepoMapper E}.
Variable table_name : string.

(** [Repository.fetch_all]: the whole table, or the rows whose [deleted]
    flag is 0 when [include_deleted] is false (the default). *)
Definition fetch_all (include_deleted : bool) : M (list E) :=
  let query :=
    if include_deleted then "SELECT * FROM " +:+ table_name
    else "SELECT * FROM " +:+ table_name +:+ " WHERE deleted = 0" in
  _ <- create_connection ;;
  cr <- execute query [] ;;
  let fetched_data := fetchall cr in
  _ <- close ;;
  lift (map_outcome map_from_repo fetched_data).

End RepositoryScan.

(** ** More vocabulary *)

Section MoreVocabulary.
Context `{Platform}.

Definition select_all (tbl : string) : string := "SELECT * FROM " +:+ tbl.

Definition select_not_deleted (tbl : string) : string :=
  "SELECT * FROM " +:+ tbl +:+ " WHERE deleted = 0".

(** The row's [deleted] flag is the number 0. *)
Definition not_deleted (r : row) : bool := num_eq (c_deleted r) (VInt 0).

(** The rows a call of [fetch_all] reads. *)
Definition scanned (include_deleted : bool) (rows : list row) : list row :=
  if include_deleted then rows else List.filter not_deleted rows.

(** The entity as a stored row reads back: the mapped fields of the record
    a [SELECT *] gives. *)
Definition user_of_row (r : row) : outcome User :=
  User_map_from_repo (row_record r).

(** A user whose fields have the types the constructor's signature names:
    strings, and an [int] for the type. *)
Definition typed_user (e : User) : Prop :=
  (exists s, entity_uuid_ e = VStr s) /\ (exists s, user_name_ e = VStr s)
  /\ (exists s, email_ e = VStr s) /\ (exists s, last_login_ip_ e = VStr s)
  /\ (exists z, user_type_ e = VInt z).

(** The three validated fields of a user satisfy their validation. *)
Definition valid_user (e : User) : Prop :=
  email_valid (email_ e) /\ last_login_ip_valid (last_login_ip_ e)
  /\ user_type_valid (user_type_ e).

(** The row [update_one] leaves where it found the user's id. *)
Definition row_of_user (e : User) (r : row) : row :=
  updated_row (user_name_ e) (email_ e) (last_login_ip_ e) (user_type_ e) r.

Fixpoint count_char (c : ascii) (s : string) : nat :=
  match s with
  | "" => 0%nat
  | String x s' => ((if Ascii.eqb x c then 1 else 0) + count_char c s')%nat
  end.

(** The table after each mutation by uuid: every row that carries the id
    is flagged, removed, or rewritten; the others stay as they are, in
    place. *)
Definition soft_deleted_rows (id : string) (rows : list row) : list row :=
  map (fun x => if has_uuid id x then mark_deleted x else x) rows.

Definition hard_deleted_rows (id : string) (rows : list row) : list row :=
  List.filter (fun x => negb (has_uuid id x)) rows.

Definition updated_rows (e : User) (id : string) (rows : list row)
  : list row :=
  map (fun x => if has_uuid id x then row_of_user e x else x) rows.

(** The rows that do not carry the id. *)
Definition other_rows (id : string) (rows : list row) : list row :=
  List.filter (fun x => negb (has_uuid id x)) rows.

(** A call that leaves the committed store as it was and commits
    nothing, whatever it returns or raises. *)
Definition read_only {A} (m : M A) : Prop :=
  forall w,
    store (snd (m w)) = store w
    /\ exists evs, log (snd (m w)) = log w ++ evs /\ ~ In EvCommit evs.

(** A call that has closed its connection whenever it returns normally. *)
Definition closes_on_return {A} (m : M A) : Prop :=
  forall w a w', m w = (Ok a, w') -> session w' = None.

(** The scanner is between tokens or inside a word. *)
Definition outside_literal (st : lex_state) : Prop :=
  match st with
  | LIdle | LWord _ => True
  | LText _ | LQuote _ | LOther => False
  end.

(** Text made of spaces, ASCII word characters and the punctuation the
    scanner knows: outside a literal it is read as words and symbols, and
    it opens no literal and no comment. *)
Definition bare_char (c : ascii) : bool :=
  is_space c || ascii_word c || is_symbol c.

Definition sql_bare (s : string) : bool := all_chars bare_char s.

(** The four fields [update_one] binds are values sqlite3 binds as they
    are. *)
Definition bindable_user (e : User) : Prop :=
  bindable (user_name_ e) = true /\ bindable (email_ e) = true
  /\ bindable (last_login_ip_ e) = true /\ bindable (user_type_ e) = true.

(** No table of the database goes by the name, in any letter case. *)
Definition unknown_table (db : database) (tbl : string) : Prop :=
  forall k, is_Some (db !! k) -> same_name k tbl = false.

(** The world a call leaves when its statement fails: the store as it was,
    the connection still open, the statement logged and no close after
    it. *)
Definition left_open (q : string) (ps : list value) (w : world) : world :=
  mkWorld (store w) (Some (store w)) (log w ++ [EvConnect; EvExecute q ps]).

End MoreVocabulary.

(** ** A sample platform, for the worked examples *)

Fixpoint split_dots (cur : string) (s : string) : list string :=
  match s with
  | "" => [cur]
  | String c s' =>
      if Ascii.eqb c "." then cur :: split_dots "" s'
      else split_dots (snoc cur c) s'
  end.

Definition octet (s : string) : bool :=
  negb (String.eqb s "") && all_chars ascii_digit s
  && (String.length s <=? 3)%nat
  && match int_of_text s with
     | Some z => z <=? 255
     | None => false
     end.

(** Dotted-quad IPv4 literals. *)
Definition ipv4_literal (v : value) : bool :=
  match v with
  | VStr s =>
      let parts := split_dots "" s in
      (List.length parts =? 4)%nat && forallb octet parts
  | _ => false
  end.

(** The double nearest to an integer (ties to even), as an integer. *)
Definition nearest_double (z : Z) : Z :=
  let a := Z.abs z in
  let n := Z.log2 a - 52 in
  if n <=? 0 then z
  else
    let q := Z.shiftr a n in
    let r := Z.land a (Z.ones n) in
    let half := Z.shiftl 1 (n - 1) in
    let q' := if (half <? r) || ((r =? half) && Z.odd q) then q + 1 else q in
    Z.sgn z * Z.shiftl q' n.

(** IPv4 literals only, no word character outside ASCII, the statement
    keywords reserved, a decimal integer text beyond 64 bits read as the
    nearest double and no other text as a number, values stored as they
    are bound, the names in [sqlite_] and [pragma_] resolved by SQLite, and
    every statement outside the engine refused. *)
Definition sample_platform : Platform := {|
  ip_address := ipv4_literal;
  unicode_word := fun _ => false;
  str_of_num := fun _ => "nan";
  reserved_word := fun w =>
    existsb (String.eqb w)
      ["ADD"; "ALL"; "ALTER"; "AND"; "AS"; "AUTOINCREMENT"; "BETWEEN";
       "CASE"; "CHECK"; "COLLATE"; "COMMIT"; "CONSTRAINT"; "CREATE";
       "CROSS"; "DEFAULT"; "DEFERRABLE"; "DELETE"; "DISTINCT"; "DROP";
       "ELSE"; "ESCAPE"; "EXCEPT"; "EXISTS"; "FOREIGN"; "FROM"; "FULL";
       "GROUP"; "HAVING"; "IN"; "INDEX"; "INNER"; "INSERT"; "INTERSECT";
       "INTO"; "IS"; "ISNULL"; "JOIN"; "LEFT"; "LIMIT"; "NATURAL"; "NOT";
       "NOTHING"; "NOTNULL"; "NULL"; "ON"; "OR"; "ORDER"; "OUTER";
       "PRIMARY"; "REFERENCES"; "RETURNING"; "RIGHT"; "SELECT"; "SET";
       "TABLE"; "THEN"; "TO"; "TRANSACTION"; "UNION"; "UNIQUE"; "UPDATE";
       "USING"; "VALUES"; "WHEN"; "WHERE"];
  real_text := fun s =>
    option_map (fun z => VNum (inject_Z (nearest_double z))) (int_of_text s);
  affinity_cast := fun _ v => v;
  self_resolved := fun w =>
    String.prefix "SQLITE_" (upper w) || String.prefix "PRAGMA_" (upper w);
  foreign_statement := fun _ _ db => (Raise OperationalError, db)
|}.

(** The rows of the tests' fixtures, not deleted. *)
Definition john : row :=
  mkRow (VStr "test-uuid-1") (VStr "John Doe") (VStr "john.doe@example.com")
    (VStr "192.168.1.1") (VInt 1) (VInt 0).

Definition jane : row :=
  mkRow (VStr "test-uuid-2") (VStr "Jane Doe") (VStr "jane.doe@example.com")
    (VStr "192.168.1.2") (VInt 1) (VInt 0).

Definition user_john : User :=
  mkUser (VStr "test-uuid-1") (VStr "John Doe") (VStr "john.doe@example.com")
    (VStr "192.168.1.1") (VInt 1).

Definition user_jane : User :=
  mkUser (VStr "test-uuid-2") (VStr "Jane Doe") (VStr "jane.doe@example.com")
    (VStr "192.168.1.2") (VInt 1).

(** A database file with the two rows in table [user], no connection open,
    nothing logged. *)
Definition fixture_world : world :=
  mkWorld {[ "user" := [john; jane] ]} None [].

(** * Facts *)

(** ** Strings *)

Lemma append_nil_r (s : string) : s +:+ "" = s.
Proof. induction s as [|c s IH]; simpl; [reflexivity | now rewrite IH]. Qed.

Lemma append_assoc (a b c : string) : (a +:+ b) +:+ c = a +:+ (b +:+ c).
Proof. induction a as [|x a IH]; simpl; [reflexivity | now rewrite IH]. Qed.

Lemma append_eq_nil (a b : string) : a +:+ b = "" -> a = "" /\ b = "".
Proof. destruct a; simpl; [auto | discriminate]. Qed.

Lemma snoc_append (s t : string) (c : ascii) :
  snoc s c +:+ t = s +:+ String c t.
Proof. unfold snoc. now rewrite append_assoc. Qed.

(** ** The matcher decides the language *)

Module ReFacts.
Import Re.

Lemma nullable_matches r : nullable r = true <-> matches r "".
Proof.
  split.
  - induction r as [| |p|r1 IH1 r2 IH2|r1 IH1 r2 IH2|r IH]; simpl; intros Hn;
      try discriminate.
    + constructor.
    + apply andb_true_iff in Hn as [H1 H2].
      change "" with ("" +:+ ""). constructor; auto.
    + apply orb_true_iff in Hn as [H1 | H2];
        [apply MAltL | apply MAltR]; auto.
    + constructor.
  - remember "" as s eqn:Hs. intros Hm.
    induction Hm as [|p c Hp|r1 r2 s1 s2 _ IH1 _ IH2|r1 r2 s _ IH
                     |r1 r2 s _ IH|r|r s1 s2 _ _ _ _]; simpl; auto.
    + discriminate.
    + apply append_eq_nil in Hs as [-> ->].
      rewrite IH1, IH2; auto.
    + rewrite IH; auto.
    + rewrite IH; auto using orb_true_r.
Qed.

Lemma deriv_sound c r : forall s, matches (deriv c r) s -> matches r (String c s).
Proof.
  induction r as [| |p|r1 IH1 r2 IH2|r1 IH1 r2 IH2|r IH]; simpl; intros s Hm.
  - inversion Hm.
  - inversion Hm.
  - destruct (p c) eqn:Hp; inversion Hm; subst. now constructor.
  - assert (Hcat : forall t, matches (Cat (deriv c r1) r2) t ->
                             matches (Cat r1 r2) (String c t)).
    { intros t Ht. inversion Ht; subst.
      change (String c (s1 +:+ s2)) with (String c s1 +:+ s2).
      constructor; auto. }
    destruct (nullable r1) eqn:Hn; [|auto].
    inversion Hm; subst; [auto|].
    change (String c s) with ("" +:+ String c s).
    constructor; [now apply nullable_matches | auto].
  - inversion Hm; subst; [apply MAltL | apply MAltR]; auto.
  - inversion Hm; subst.
    change (String c (s1 +:+ s2)) with (String c s1 +:+ s2).
    constructor; auto.
Qed.

Lemma deriv_complete c r w :
  matches r w -> forall s, w = String c s -> matches (deriv c r) s.
Proof.
  induction 1 as [|p x Hp|r1 r2 s1 s2 H1 IH1 H2 IH2|r1 r2 t _ IH
                  |r1 r2 t _ IH|r|r s1 s2 H1 IH1 H2 IH2]; intros s Hw; simpl.
  - discriminate.
  - injection Hw as -> <-. rewrite Hp. constructor.
  - destruct s1 as [|y s1]; simpl in Hw.
    + apply nullable_matches in H1. rewrite H1.
      apply MAltR; auto.
    + injection Hw as -> <-.
      assert (Hc : matches (Cat (deriv c r1) r2) (s1 +:+ s2))
        by (constructor; auto).
      destruct (nullable r1); [apply MAltL|]; exact Hc.
  - apply MAltL; auto.
  - apply MAltR; auto.
  - discriminate.
  - destruct s1 as [|y s1]; simpl in Hw.
    + apply (IH2 _ Hw).
    + injection Hw as -> <-. constructor; auto.
Qed.

Lemma deriv_matches c r s : matches (deriv c r) s <-> matches r (String c s).
Proof. split; [apply deriv_sound | intros; eapply deriv_complete; eauto]. Qed.

Lemma at_dollar_spec t : at_dollar t = true <-> t = "" \/ t = String "010" "".
Proof.
  destruct t as [|c [|d t]]; simpl.
  - intuition.
  - rewrite Ascii.eqb_eq. split; [intros ->; auto | intros [|[=]]; auto; discriminate].
  - split; [discriminate | intros [|]; discriminate].
Qed.

(** [match_dollar r s] holds exactly when a prefix of [s] is in the language
    of [r] and what follows it is nothing, or one final newline. *)
Lemma match_dollar_spec s : forall r,
  match_dollar r s = true <->
  exists p t, s = p +:+ t /\ matches r p /\ (t = "" \/ t = String "010" "").
Proof.
  induction s as [|c s IH]; intros r.
  - simpl. rewrite orb_false_r, andb_true_r, nullable_matches. split.
    + intros Hm. exists "", "". auto.
    + intros (p & t & Hs & Hm & _). symmetry in Hs.
      apply append_eq_nil in Hs as [-> _]. exact Hm.
  - change (match_dollar r (String c s))
      with (nullable r && at_dollar (String c s) || match_dollar (deriv c r) s).
    rewrite orb_true_iff, andb_true_iff, IH, nullable_matches, at_dollar_spec.
    split.
    + intros [[Hn Ht] | (p & t & -> & Hm & Ht)].
      * exists "", (String c s). auto.
      * exists (String c p), t. split; [reflexivity|].
        split; [now apply deriv_matches | exact Ht].
    + intros (p & t & Hs & Hm & Ht). destruct p as [|x p]; simpl in Hs.
      * left. subst t. auto.
      * injection Hs as <- ->. right. exists p, t.
        split; [reflexivity|]. split; [now apply deriv_matches | exact Ht].
Qed.

Lemma cat_inv r1 r2 s :
  matches (Cat r1 r2) s <->
  exists s1 s2, s = s1 +:+ s2 /\ matches r1 s1 /\ matches r2 s2.
Proof.
  split.
  - intros Hm. inversion Hm; subst. eauto.
  - intros (s1 & s2 & -> & H1 & H2). now constructor.
Qed.

Lemma class_inv p s :
  matches (Class p) s <-> exists c, s = String c "" /\ p c = true.
Proof.
  split.
  - intros Hm. inversion Hm; subst. eauto.
  - intros (c & -> & Hp). now constructor.
Qed.

Lemma star_class p s : matches (Star (Class p)) s <-> all_chars p s = true.
Proof.
  split.
  - remember (Star (Class p)) as r eqn:Hr. intros Hm.
    induction Hm as [|? ? _|? ? ? ? _ _ _ _|? ? ? _ _|? ? ? _ _|?
                     |r0 s1 s2 H1 _ _ IH2]; try discriminate.
    + reflexivity.
    + injection Hr as ->. apply class_inv in H1 as (c & -> & Hp).
      cbn. rewrite Hp. now apply IH2.
  - induction s as [|c s IH]; cbn; intros Hs; [constructor|].
    apply andb_true_iff in Hs as [Hp Hs].
    change (String c s) with (String c "" +:+ s).
    constructor; [now constructor | auto].
Qed.

(** [[class]+] is a non-empty run of characters of the class. *)
Lemma plus_class p s :
  matches (Plus (Class p)) s <-> s <> "" /\ all_chars p s = true.
Proof.
  unfold Plus. rewrite cat_inv. split.
  - intros (s1 & s2 & -> & H1 & H2).
    apply class_inv in H1 as (c & -> & Hp). apply star_class in H2.
    cbn. rewrite Hp, H2. split; [discriminate | reflexivity].
  - intros [Hne Hs]. destruct s as [|c s]; [congruence|]. cbn in Hs.
    apply andb_true_iff in Hs as [Hp Hs].
    exists (String c ""), s. split; [reflexivity|].
    split; [now apply class_inv; eauto | now apply star_class].
Qed.

End ReFacts.

(** ** The entity and its mapper *)

Section EntityFacts.
Context `{Platform}.

Lemma email_matches_iff s :
  Re.match_dollar email_pattern s = true <-> email_matches s.
Proof. apply ReFacts.match_dollar_spec. Qed.

Lemma email_matches_shape s : email_matches s <-> email_shape s.
Proof.
  unfold email_matches, email_shape, email_pattern. split.
  - intros (p & nl & -> & Hm & Hnl).
    apply ReFacts.cat_inv in Hm as (l & p1 & -> & Hl & Hm).
    apply ReFacts.cat_inv in Hm as (a & p2 & -> & Ha & Hm).
    apply ReFacts.cat_inv in Hm as (d & p3 & -> & Hd & Hm).
    apply ReFacts.cat_inv in Hm as (o & t & -> & Ho & Ht).
    apply ReFacts.class_inv in Ha as (c & -> & Hc).
    apply Ascii.eqb_eq in Hc as <-.
    apply ReFacts.class_inv in Ho as (c & -> & Hc).
    apply Ascii.eqb_eq in Hc as <-.
    apply ReFacts.plus_class in Hl as [Hl1 Hl2].
    apply ReFacts.plus_class in Hd as [Hd1 Hd2].
    apply ReFacts.plus_class in Ht as [Ht1 Ht2].
    exists l, d, t, nl. repeat split; auto.
    rewrite !append_assoc. reflexivity.
  - intros (l & d & t & nl & -> & Hl1 & Hl2 & Hd1 & Hd2 & Ht1 & Ht2 & Hnl).
    exists (l +:+ String "@" (d +:+ String "." t)), nl.
    split; [repeat (rewrite append_assoc; cbn [String.append]); reflexivity|].
    split; [|exact Hnl].
    constructor; [now apply ReFacts.plus_class|].
    change (String "@" (d +:+ String "." t))
      with (String "@" "" +:+ (d +:+ (String "." "" +:+ t))).
    constructor; [now constructor|].
    constructor; [now apply ReFacts.plus_class|].
    constructor; [now constructor | now apply ReFacts.plus_class].
Qed.

Lemma email_guard_ok s : email_matches s -> email_guard (VStr s) = Ok tt.
Proof.
  intros Hm. apply email_matches_iff in Hm.
  unfold email_guard. simpl. now rewrite Hm.
Qed.

Lemma email_guard_bad s :
  ~ email_matches s -> email_guard (VStr s) = Raise ValueError.
Proof.
  intros Hm. unfold email_guard. simpl.
  destruct (Re.match_dollar email_pattern s) eqn:E; [|reflexivity].
  exfalso. apply Hm. now apply email_matches_iff.
Qed.

Lemma email_guard_inv v : email_guard v = Ok tt -> email_valid v.
Proof.
  destruct v as [|z|q|s]; try discriminate.
  unfold email_guard. simpl.
  destruct (Re.match_dollar email_pattern s) eqn:E; [|discriminate].
  intros _. exists s. split; [reflexivity | now apply email_matches_iff].
Qed.

Lemma Qle_bool_false x y : Qle_bool x y = false <-> (y < x)%Q.
Proof.
  destruct (Qle_bool x y) eqn:E.
  - split; [discriminate|]. intros Hlt.
    apply Qle_bool_iff in E. apply Qlt_not_le in Hlt. contradiction.
  - split; [|reflexivity]. intros _. apply Qnot_le_lt. intros Hle.
    apply Qle_bool_iff in Hle. congruence.
Qed.

Lemma user_type_guard_int z :
  user_type_guard (VInt z)
  = if (z <? 1) || (3 <? z) then Raise ValueError else Ok tt.
Proof.
  unfold user_type_guard. simpl.
  destruct (z <? 1); simpl; [reflexivity|]. now destruct (3 <? z).
Qed.

Lemma user_type_guard_num q :
  user_type_guard (VNum q)
  = if Qle_bool 1 q && Qle_bool q 3 then Ok tt else Raise ValueError.
Proof.
  unfold user_type_guard. simpl.
  change (inject_Z 1) with 1%Q. change (inject_Z 3) with 3%Q.
  destruct (Qle_bool 1 q); simpl; [|reflexivity]. now destruct (Qle_bool q 3).
Qed.

Lemma user_type_guard_ok v : user_type_valid v <-> user_type_guard v = Ok tt.
Proof.
  destruct v as [|z|q|s]; simpl; try (split; [tauto | discriminate]).
  - rewrite user_type_guard_int.
    destruct (z <? 1) eqn:E1; destruct (3 <? z) eqn:E2; simpl;
      (split; [intros ?|intros ?]); try discriminate; try reflexivity; lia.
  - rewrite user_type_guard_num.
    destruct (Qle_bool 1 q) eqn:E1; destruct (Qle_bool q 3) eqn:E2; simpl;
      rewrite <- ?Qle_bool_iff, ?E1, ?E2;
      (split; [intros [? ?]|intros ?]); try discriminate; try reflexivity;
      try split; congruence.
Qed.

Lemma user_type_guard_raises v e :
  user_type_guard v = Raise e -> validation_error e.
Proof.
  unfold validation_error.
  destruct v as [|z|q|s]; simpl; try (intros [= <-]; now right).
  - rewrite user_type_guard_int. destruct (_ || _); intros [= <-]. now left.
  - rewrite user_type_guard_num. destruct (_ && _); intros [= <-]. now left.
Qed.

Lemma email_guard_raises v e : email_guard v = Raise e -> validation_error e.
Proof.
  unfold validation_error, email_guard.
  destruct v as [|z|q|s]; simpl; try (intros [= <-]; now right).
  destruct (Re.match_dollar _ _); simpl; intros [= <-]. now left.
Qed.

(** The constructor succeeds exactly when the three guards pass, in source
    order, and then holds the five arguments. *)
Lemma User_init_guards a b c d e :
  User_init a b c d e
  = (_ <~ email_guard c ;;
     _ <~ last_login_ip_guard d ;;
     _ <~ user_type_guard e ;;
     Ok (mkUser a b c d e)).
Proof.
  unfold User_init, and_then, set_entity_uuid, set_user_name, set_email,
    set_last_login_ip, set_user_type, assign. cbn.
  destruct (email_guard c) as [[]|]; cbn; [|reflexivity].
  destruct (last_login_ip_guard d) as [[]|]; cbn; [|reflexivity].
  destruct (user_type_guard e) as [[]|]; reflexivity.
Qed.

Lemma assign_guards_pass guard store u :
  guards_pass u ->
  (guard = Ok tt -> guards_pass (store u)) ->
  guards_pass (snd (assign guard store u)).
Proof.
  intros Hu Hs. unfold assign.
  destruct guard as [[]|e]; simpl; auto.
Qed.

Lemma constructed_guards_pass u : constructed u -> guards_pass u.
Proof.
  induction 1 as [a b c d e u Hinit|v u _ IH|v u _ IH|v u _ IH|v u _ IH|v u _ IH].
  - rewrite User_init_guards in Hinit.
    destruct (email_guard c) as [[]|] eqn:E1; [|discriminate].
    destruct (last_login_ip_guard d) as [[]|] eqn:E2; [|discriminate].
    destruct (user_type_guard e) as [[]|] eqn:E3; [|discriminate].
    simpl in Hinit. injection Hinit as <-. now repeat split.
  - apply assign_guards_pass; auto.
  - apply assign_guards_pass; auto.
  - apply assign_guards_pass; auto.
    intros Hg. destruct IH as (_ & ? & ?). now repeat split.
  - apply assign_guards_pass; auto.
    intros Hg. destruct IH as (? & _ & ?). now repeat split.
  - apply assign_guards_pass; auto.
    intros Hg. destruct IH as (? & ? & _). now repeat split.
Qed.

Lemma User_init_guards_pass u :
  guards_pass u ->
  User_init (entity_uuid_ u) (user_name_ u) (email_ u) (last_login_ip_ u)
    (user_type_ u) = Ok u.
Proof.
  intros (H1 & H2 & H3). rewrite User_init_guards.
  rewrite H1, H2, H3. simpl. now destruct u.
Qed.

End EntityFacts.

Section EntityClaims.
Context `{Platform}.

Lemma email_guard_iff v : email_valid v <-> email_guard v = Ok tt.
Proof.
  split; [|apply email_guard_inv].
  intros (s & -> & Hm). now apply email_guard_ok.
Qed.

Lemma email_guard_invalid v :
  ~ email_valid v -> email_guard v = Raise (email_error v).
Proof.
  intros Hv. destruct v as [|z|q|s]; try reflexivity.
  apply email_guard_bad. intros Hm. apply Hv. now exists s.
Qed.

Lemma user_type_guard_invalid v :
  ~ user_type_valid v -> user_type_guard v = Raise (user_type_error v).
Proof.
  intros Hv. destruct v as [|z|q|s]; try reflexivity.
  - rewrite user_type_guard_int.
    destruct (_ || _) eqn:E; [reflexivity|].
    exfalso. apply Hv. simpl. apply orb_false_iff in E as [E1 E2]. lia.
  - rewrite user_type_guard_num.
    destruct (_ && _) eqn:E; [|reflexivity].
    exfalso. apply Hv. simpl. apply andb_true_iff in E as [E1 E2].
    now rewrite <- !Qle_bool_iff.
Qed.

Lemma last_login_ip_guard_iff v :
  last_login_ip_valid v <-> last_login_ip_guard v = Ok tt.
Proof.
  unfold last_login_ip_valid, last_login_ip_guard.
  destruct (ip_address v); split; congruence.
Qed.

Lemma last_login_ip_guard_invalid v :
  ~ last_login_ip_valid v -> last_login_ip_guard v = Raise ValueError.
Proof.
  unfold last_login_ip_valid, last_login_ip_guard.
  destruct (ip_address v); [tauto | reflexivity].
Qed.

(** C2, as the code has it: every assignment to the email, the last-login
    address or the user type of a user runs that field's validation: a
    valid value is stored, an invalid one raises ([ValueError] on a value
    of the field's type, [TypeError] otherwise) and leaves the user as it
    was. An assignment to the name runs no validation and always stores. *)
Theorem C2_setters_validate_every_assignment (u : User) (v : value) :
  set_user_name v u = (Ok tt, with_user_name v u)
  /\ (email_valid v -> set_email v u = (Ok tt, with_email v u))
  /\ (~ email_valid v -> set_email v u = (Raise (email_error v), u))
  /\ (last_login_ip_valid v ->
      set_last_login_ip v u = (Ok tt, with_last_login_ip v u))
  /\ (~ last_login_ip_valid v ->
      set_last_login_ip v u = (Raise ValueError, u))
  /\ (user_type_valid v -> set_user_type v u = (Ok tt, with_user_type v u))
  /\ (~ user_type_valid v ->
      set_user_type v u = (Raise (user_type_error v), u)).
Proof.
  unfold set_user_name, set_email, set_last_login_ip, set_user_type, assign.
  split; [reflexivity|].
  split; [intros Hv; apply email_guard_iff in Hv; now rewrite Hv|].
  split; [intros Hv; now rewrite (email_guard_invalid _ Hv)|].
  split; [intros Hv; apply last_login_ip_guard_iff in Hv; now rewrite Hv|].
  split; [intros Hv; now rewrite (last_login_ip_guard_invalid _ Hv)|].
  split; [intros Hv; apply user_type_guard_ok in Hv; now rewrite Hv|].
  intros Hv; now rewrite (user_type_guard_invalid _ Hv).
Qed.

(** C3: assigning a string to the email stores exactly that string when it
    matches [^[\w\.-]+@[\w\.-]+\.\w+$], and raises [ValueError] with the
    user unchanged when it does not; the bare string "invalid" does not
    match. Matching is [re.match]'s: local part, at sign, domain, dot, top
    level, and then the end of the string or one final newline. *)
Theorem C3_email_assignment (u : User) (s : string) :
  (email_matches s <-> email_shape s)
  /\ (email_matches s ->
      set_email (VStr s) u = (Ok tt, with_email (VStr s) u)
      /\ email_ (with_email (VStr s) u) = VStr s)
  /\ (~ email_matches s -> set_email (VStr s) u = (Raise ValueError, u))
  /\ ~ email_matches "invalid".
Proof.
  unfold set_email, assign. split; [apply email_matches_shape|].
  split; [|split].
  - intros Hm. now rewrite (email_guard_ok _ Hm).
  - intros Hm. now rewrite (email_guard_bad _ Hm).
  - intros Hm. apply email_matches_iff in Hm. vm_compute in Hm. discriminate.
Qed.

(** C9: the user-type setter raises exactly when the value is below 1 or
    above 3 and checks nothing else: a number that is not an [int], such
    as 2.5, is stored when it lies between 1 and 3. *)
Theorem C9_user_type_range_only (u : User) :
  (forall z : Z,
      (z < 1 \/ 3 < z -> set_user_type (VInt z) u = (Raise ValueError, u))
      /\ (1 <= z <= 3 ->
          set_user_type (VInt z) u = (Ok tt, with_user_type (VInt z) u)))
  /\ (forall q : Q,
      ((q < 1 \/ 3 < q)%Q -> set_user_type (VNum q) u = (Raise ValueError, u))
      /\ ((1 <= q /\ q <= 3)%Q ->
          set_user_type (VNum q) u = (Ok tt, with_user_type (VNum q) u)
          /\ user_type_ (with_user_type (VNum q) u) = VNum q)).
Proof.
  unfold set_user_type, assign. split.
  - intros z. rewrite user_type_guard_int. split; intros Hz.
    + replace ((z <? 1) || (3 <? z)) with true; [reflexivity|].
      symmetry. apply orb_true_iff. lia.
    + replace ((z <? 1) || (3 <? z)) with false; [reflexivity|].
      symmetry. apply orb_false_iff. lia.
  - intros q. rewrite user_type_guard_num. split.
    + intros Hq.
      replace (Qle_bool 1 q && Qle_bool q 3) with false; [reflexivity|].
      symmetry. apply andb_false_iff.
      destruct Hq as [Hq | Hq]; [left | right]; now apply Qle_bool_false.
    + intros [H1 H3]. apply Qle_bool_iff in H1, H3. rewrite H1, H3.
      now split.
Qed.

(** C4: mapping a valid user to its record and the record back succeeds
    and gives a user with the same id, name, email, last-login address and
    type. Valid is: built by the constructor and written through the
    setters since; or, as well, any user whose email, address and type
    satisfy their validation. *)
Theorem C4_mapper_round_trip (u : User) :
  (constructed u -> User_map_from_repo (User_map_to_repo u) = Ok u)
  /\ (email_valid (email_ u) /\ last_login_ip_valid (last_login_ip_ u)
      /\ user_type_valid (user_type_ u) ->
      User_map_from_repo (User_map_to_repo u) = Ok u).
Proof.
  assert (Hg : guards_pass u -> User_map_from_repo (User_map_to_repo u) = Ok u).
  { intros Hu. unfold User_map_from_repo, User_map_to_repo. simpl.
    now apply User_init_guards_pass. }
  split.
  - intros Hu. apply Hg. now apply constructed_guards_pass.
  - intros (He & Hi & Ht). apply Hg.
    split; [now apply email_guard_iff|].
    split; [now apply last_login_ip_guard_iff | now apply user_type_guard_ok].
Qed.

Lemma record_get_cases r k : has_key r k \/ record_get r k = Raise LookupError.
Proof.
  unfold has_key. induction r as [|[k' v] r IH]; simpl; [now right|].
  destruct (String.eqb k' k); [left; eauto | exact IH].
Qed.

(** C7: [map_from_repo] raises when one of the five keys is missing
    ([LookupError]) or when a value fails the entity's validation (the
    constructor's error), and builds the user from a record that has the
    five keys with valid values. *)
Theorem C7_map_from_repo (r : record) :
  ((exists k, In k User_keys /\ ~ has_key r k) ->
   User_map_from_repo r = Raise LookupError)
  /\ (forall uuid name em ip ty,
        record_get r "uuid" = Ok uuid ->
        record_get r "user_name" = Ok name ->
        record_get r "email" = Ok em ->
        record_get r "last_login_ip" = Ok ip ->
        record_get r "user_type" = Ok ty ->
        (email_valid em /\ last_login_ip_valid ip /\ user_type_valid ty ->
         User_map_from_repo r = Ok (mkUser uuid name em ip ty))
        /\ (~ (email_valid em /\ last_login_ip_valid ip /\ user_type_valid ty) ->
            exists e, validation_error e /\ User_map_from_repo r = Raise e)).
Proof.
  split.
  - intros (k & Hk & Hmiss). unfold User_map_from_repo.
    simpl in Hk.
    destruct (record_get_cases r "uuid") as [[v1 E1]|E1]; rewrite E1;
      [simpl|reflexivity].
    destruct (record_get_cases r "user_name") as [[v2 E2]|E2]; rewrite E2;
      [simpl|reflexivity].
    destruct (record_get_cases r "email") as [[v3 E3]|E3]; rewrite E3;
      [simpl|reflexivity].
    destruct (record_get_cases r "last_login_ip") as [[v4 E4]|E4]; rewrite E4;
      [simpl|reflexivity].
    destruct (record_get_cases r "user_type") as [[v5 E5]|E5]; rewrite E5;
      [simpl|reflexivity].
    exfalso. apply Hmiss. unfold has_key.
    destruct Hk as [<-|[<-|[<-|[<-|[<-|[]]]]]]; eauto.
  - intros uuid name em ip ty H1 H2 H3 H4 H5.
    unfold User_map_from_repo. rewrite H1, H2, H3, H4, H5. simpl.
    rewrite User_init_guards. split.
    + intros (He & Hi & Ht).
      apply email_guard_iff in He. apply last_login_ip_guard_iff in Hi.
      apply user_type_guard_ok in Ht. now rewrite He, Hi, Ht.
    + intros Hn.
      destruct (email_guard em) as [[]|e] eqn:E1;
        [|exists e; split; [eapply email_guard_raises; eauto | reflexivity]].
      destruct (last_login_ip_guard ip) as [[]|e] eqn:E2.
      2:{ exists e. split; [|reflexivity].
          unfold last_login_ip_guard in E2.
          destruct (ip_address ip); [discriminate|].
          injection E2 as <-. now left. }
      destruct (user_type_guard ty) as [[]|e] eqn:E3;
        [|exists e; split; [eapply user_type_guard_raises; eauto | reflexivity]].
      exfalso. apply Hn.
      split; [now apply email_guard_iff|].
      split; [now apply last_login_ip_guard_iff | now apply user_type_guard_ok].
Qed.

End EntityClaims.

(** ** Statement text is read back as the statement it was built for *)

Lemma ascii_word_not_special c :
  ascii_word c = true -> is_quote c = false /\ is_space c = false.
Proof.
  destruct c as [[] [] [] [] [] [] [] []]; vm_compute; intros;
    try discriminate; auto.
Qed.

Lemma lex_app p : forall st rest,
  lex st (p +:+ rest)
  = lexed_after (fst (lex_steps st p)) (lex (snd (lex_steps st p)) rest).
Proof.
  induction p as [|c p IH]; intros st rest.
  - simpl. now destruct (lex st rest).
  - cbn [String.append lex lex_steps].
    destruct (lex_step st c) as [out st']. rewrite IH.
    destruct (lex_steps st' p) as [out' st'']. cbn [fst snd].
    destruct (lex st'' rest); simpl; try reflexivity.
    now rewrite app_assoc.
Qed.

Lemma lex_steps_word w2 : forall w1,
  all_chars ascii_word w2 = true ->
  lex_steps (LWord w1) w2 = ([], LWord (w1 +:+ w2)).
Proof.
  induction w2 as [|c w2 IH]; intros w1 Hw.
  - simpl. now rewrite append_nil_r.
  - simpl in Hw. apply andb_true_iff in Hw as [Hc Hw].
    cbn [lex_steps lex_step]. rewrite Hc.
    rewrite IH, snoc_append; auto.
Qed.

Lemma lex_steps_idle_word w :
  w <> "" -> all_chars ascii_word w = true ->
  lex_steps LIdle w = ([], LWord w).
Proof.
  destruct w as [|c w]; [congruence|]. intros _ Hw.
  simpl in Hw. apply andb_true_iff in Hw as [Hc Hw].
  destruct (ascii_word_not_special c Hc) as [Hq Hs].
  cbn [lex_steps lex_step]. unfold lex_idle. rewrite Hq, Hs, Hc.
  now rewrite lex_steps_word.
Qed.

Lemma lex_steps_text t2 : forall t1,
  sql_plain t2 = true ->
  lex_steps (LText t1) t2 = ([], LText (t1 +:+ t2)).
Proof.
  induction t2 as [|c t2 IH]; intros t1 Ht.
  - simpl. now rewrite append_nil_r.
  - simpl in Ht. apply andb_true_iff in Ht as [Hc Ht].
    apply andb_true_iff in Hc as [Hc _]. apply negb_true_iff in Hc.
    cbn [lex_steps lex_step]. rewrite Hc.
    rewrite IH, snoc_append; auto.
Qed.

Lemma all_chars_app p a b :
  all_chars p (a +:+ b) = all_chars p a && all_chars p b.
Proof.
  induction a as [|c a IH]; [reflexivity|].
  cbn [String.append all_chars]. now rewrite IH, andb_assoc.
Qed.

Lemma has_nul_app a b : has_nul (a +:+ b) = has_nul a || has_nul b.
Proof. unfold has_nul. now rewrite all_chars_app, negb_andb. Qed.

Lemma all_chars_weaken (p q : ascii -> bool) s :
  (forall c, p c = true -> q c = true) ->
  all_chars p s = true -> all_chars q s = true.
Proof.
  intros Hpq. induction s as [|c s IH]; [reflexivity|].
  cbn [all_chars]. intros Hs. apply andb_true_iff in Hs as [Hc Hs].
  now rewrite (Hpq c Hc), IH.
Qed.

Lemma word_no_nul w : all_chars ascii_word w = true -> has_nul w = false.
Proof.
  intros Hw. unfold has_nul. apply negb_false_iff.
  revert Hw. apply all_chars_weaken. intros c.
  destruct c as [[] [] [] [] [] [] [] []]; vm_compute; intros;
    try discriminate; auto.
Qed.

Lemma plain_no_nul s : sql_plain s = true -> has_nul s = false.
Proof.
  intros Hs. unfold has_nul. apply negb_false_iff.
  revert Hs. apply all_chars_weaken. intros c Hc.
  now apply andb_true_iff in Hc as [_ Hc].
Qed.

(** A statement text holds no null character when its table name is a word
    and its quoted text is plain. *)
Ltac no_nul :=
  unfold select_by_uuid, soft_delete_by_uuid, delete_by_uuid,
    update_user_by_uuid, select_by_user_type;
  rewrite ?has_nul_app;
  repeat match goal with
         | Hw : all_chars ascii_word ?w = true |- _ =>
             rewrite (word_no_nul w Hw)
         | Hp : sql_plain ?t = true |- _ => rewrite (plain_no_nul t Hp)
         end;
  reflexivity.

(** Crossing a fixed piece of statement text by computation. *)
Ltac lex_fixed :=
  rewrite lex_app;
  match goal with
  | |- context [lex_steps ?st ?p] =>
      let v := eval vm_compute in (lex_steps st p) in
      replace (lex_steps st p) with v by (vm_compute; reflexivity)
  end;
  cbn [fst snd].

(** Reading a statement whose table name and quoted text are variables:
    the fixed pieces compute, the two runs are crossed by the lemmas
    above. *)
Ltac lex_through :=
  lex_fixed;
  rewrite lex_app, lex_steps_idle_word by assumption; cbn [fst snd];
  lex_fixed;
  rewrite lex_app, lex_steps_text by assumption; cbn [fst snd];
  reflexivity.

Lemma lex_select_by_uuid tbl id :
  tbl <> "" -> all_chars ascii_word tbl = true -> sql_plain id = true ->
  lex LIdle (select_by_uuid tbl id)
  = Tokens [TWord "SELECT"; TSym "*"; TWord "FROM"; TWord tbl; TWord "WHERE";
            TWord "uuid"; TSym "="; TText id].
Proof. intros Hne Hw Hid. unfold select_by_uuid. lex_through. Qed.

Lemma lex_soft_delete_by_uuid tbl id :
  tbl <> "" -> all_chars ascii_word tbl = true -> sql_plain id = true ->
  lex LIdle (soft_delete_by_uuid tbl id)
  = Tokens [TWord "UPDATE"; TWord tbl; TWord "SET"; TWord "deleted";
            TSym "="; TWord "1"; TWord "WHERE"; TWord "uuid"; TSym "=";
            TText id].
Proof. intros Hne Hw Hid. unfold soft_delete_by_uuid. lex_through. Qed.

Lemma lex_delete_by_uuid tbl id :
  tbl <> "" -> all_chars ascii_word tbl = true -> sql_plain id = true ->
  lex LIdle (delete_by_uuid tbl id)
  = Tokens [TWord "DELETE"; TWord "FROM"; TWord tbl; TWord "Where";
            TWord "uuid"; TSym "="; TText id].
Proof. intros Hne Hw Hid. unfold delete_by_uuid. lex_through. Qed.

Lemma lex_update_user_by_uuid tbl id :
  tbl <> "" -> all_chars ascii_word tbl = true -> sql_plain id = true ->
  lex LIdle (update_user_by_uuid tbl id)
  = Tokens [TWord "UPDATE"; TWord tbl; TWord "SET";
            TWord "user_name"; TSym "="; TSym "?"; TSym ",";
            TWord "email"; TSym "="; TSym "?"; TSym ",";
            TWord "last_login_ip"; TSym "="; TSym "?"; TSym ",";
            TWord "user_type"; TSym "="; TSym "?";
            TWord "WHERE"; TWord "uuid"; TSym "="; TText id].
Proof.
  intros Hne Hw Hid. unfold update_user_by_uuid.
  lex_fixed.
  rewrite lex_app, lex_steps_idle_word by assumption; cbn [fst snd].
  lex_fixed. lex_fixed.
  rewrite lex_app, lex_steps_text by assumption; cbn [fst snd].
  reflexivity.
Qed.

Lemma lex_select_by_user_type tbl lit :
  tbl <> "" -> all_chars ascii_word tbl = true -> sql_plain lit = true ->
  lex LIdle ("SELECT * FROM " +:+ tbl +:+ " WHERE user_type = '" +:+ lit +:+ "'")
  = Tokens [TWord "SELECT"; TSym "*"; TWord "FROM"; TWord tbl; TWord "WHERE";
            TWord "user_type"; TSym "="; TText lit].
Proof. intros Hne Hw Hid. lex_through. Qed.

Lemma int_of_text_str_int z : int_of_text (str_int z) = Some z.
Proof.
  unfold int_of_text, str_int.
  rewrite NilZero.isi.
  - simpl. now rewrite DecimalZ.of_to.
  - destruct z; simpl; try discriminate.
    intros [= E]. now apply DecimalPos.Unsigned.to_uint_nonnil in E.
  - destruct z; simpl; try discriminate.
    intros [= E]. now apply DecimalPos.Unsigned.to_uint_nonnil in E.
Qed.

Lemma string_of_uint_plain d : sql_plain (NilEmpty.string_of_uint d) = true.
Proof. induction d; simpl; auto. Qed.

Lemma str_int_plain z : sql_plain (str_int z) = true.
Proof.
  assert (Hu : forall d, sql_plain (NilZero.string_of_uint d) = true).
  { intros d. destruct d; try reflexivity;
      match goal with
      | |- sql_plain (NilZero.string_of_uint ?x) = true =>
          apply (string_of_uint_plain x)
      end. }
  unfold str_int. destruct (Z.to_int z) as [d|d];
    unfold NilZero.string_of_int; [apply Hu|].
  change (sql_plain (NilZero.string_of_uint d) = true). apply Hu.
Qed.

Section StatementFacts.
Context `{Platform}.

Lemma sql_identifier_word tbl :
  sql_identifier tbl = true ->
  tbl <> "" /\ all_chars ascii_word tbl = true.
Proof.
  unfold sql_identifier. destruct tbl as [|c tbl]; [discriminate|].
  intros Hi. apply andb_true_iff in Hi as [Hi _].
  apply andb_true_iff in Hi as [_ Hw]. split; [discriminate | exact Hw].
Qed.

Ltac parse_through lex_lemma Ht :=
  let Hne := fresh in
  let Hw := fresh in
  destruct (sql_identifier_word _ Ht) as [Hne Hw];
  split; [no_nul|];
  unfold parse_sql; rewrite lex_lemma by assumption;
  cbv [parse kw upper upper_char in_range code N_of_ascii N_of_digits
       N.leb N.compare N.add N.mul Pos.compare Pos.compare_cont Pos.add
       Pos.succ Pos.mul String.eqb Ascii.eqb Bool.eqb andb orb negb
       parse_where parse_sets parse_operand option_map table_name_of];
  rewrite Ht; reflexivity.

Lemma parse_select_by_uuid tbl id :
  sql_identifier tbl = true -> sql_plain id = true ->
  reads (select_by_uuid tbl id) (Select tbl (Some ("uuid", OText id))).
Proof. intros Ht Hid. parse_through lex_select_by_uuid Ht. Qed.

Lemma parse_soft_delete_by_uuid tbl id :
  sql_identifier tbl = true -> sql_plain id = true ->
  reads (soft_delete_by_uuid tbl id) (Update tbl [("deleted", OInt 1)] (Some ("uuid", OText id))).
Proof. intros Ht Hid. parse_through lex_soft_delete_by_uuid Ht. Qed.

Lemma parse_delete_by_uuid tbl id :
  sql_identifier tbl = true -> sql_plain id = true ->
  reads (delete_by_uuid tbl id) (Delete tbl (Some ("uuid", OText id))).
Proof. intros Ht Hid. parse_through lex_delete_by_uuid Ht. Qed.

Lemma parse_update_user_by_uuid tbl id :
  sql_identifier tbl = true -> sql_plain id = true ->
  reads (update_user_by_uuid tbl id)
    (Update tbl
       [("user_name", OParam); ("email", OParam);
        ("last_login_ip", OParam); ("user_type", OParam)]
       (Some ("uuid", OText id))).
Proof. intros Ht Hid. parse_through lex_update_user_by_uuid Ht. Qed.

Lemma parse_select_by_user_type tbl t :
  sql_identifier tbl = true ->
  reads (select_by_user_type tbl t)
    (Select tbl (Some ("user_type", OText (str_int t)))).
Proof.
  intros Ht. pose proof (str_int_plain t) as Hid.
  unfold select_by_user_type. parse_through lex_select_by_user_type Ht.
Qed.

Lemma holds_uuid id r : holds (Some ("uuid", OText id)) r = has_uuid id r.
Proof. reflexivity. Qed.

Lemma holds_user_type t r :
  int64 t = true ->
  holds (Some ("user_type", OText (str_int t))) r = has_user_type t r.
Proof.
  intros Ht. unfold holds, has_user_type. cbn. unfold numeric_text.
  now rewrite int_of_text_str_int, Ht.
Qed.

Lemma has_uuid_iff id r : has_uuid id r = true <-> c_uuid r = VStr id.
Proof.
  unfold has_uuid, text_eq. destruct (c_uuid r) as [| | |s];
    try (split; discriminate).
  rewrite String.eqb_eq. split; congruence.
Qed.

Lemma filter_holds_uuid id rows :
  List.filter (holds (Some ("uuid", OText id))) rows
  = List.filter (has_uuid id) rows.
Proof. apply List.filter_ext. intros r. apply holds_uuid. Qed.

Lemma filter_holds_user_type t rows :
  int64 t = true ->
  List.filter (holds (Some ("user_type", OText (str_int t)))) rows
  = List.filter (has_user_type t) rows.
Proof.
  intros Ht. apply List.filter_ext. intros r. now apply holds_user_type.
Qed.

End StatementFacts.

(** ** The repository *)

Section RepositoryFacts.
Context `{Platform}.

Lemma execute_spec q ps s db db' rows w :
  session w = Some db ->
  reads q s ->
  run s ps db = Done db' rows ->
  execute q ps w
  = (Ok (map row_record rows),
     mkWorld (store w) (Some db') (log w ++ [EvExecute q ps])).
Proof.
  intros Hs [Hn Hp] Hr. unfold execute, sqlite_answer.
  now rewrite Hs, Hn, Hp, Hr.
Qed.

(** A statement sent on a connection of its own, closed without a commit:
    the store is as before and the cursor holds the rows. *)
Lemma query_phase {A} q s rows (k : list record -> M A) w :
  reads q s ->
  run s [] (store w) = Done (store w) rows ->
  (_ <- create_connection ;; cr <- execute q [] ;; _ <- close ;; k cr) w
  = k (map row_record rows)
      (mkWorld (store w) None
         (log w ++ [EvConnect; EvExecute q []; EvClose])).
Proof.
  intros Hp Hr. unfold bind at 1. unfold create_connection.
  unfold bind at 1.
  erewrite execute_spec; [|reflexivity|exact Hp|exact Hr].
  unfold bind, close. cbn [store session log].
  now rewrite <- !app_assoc.
Qed.

(** A statement sent on a connection of its own, committed and closed: the
    store becomes the connection's view. *)
Lemma mutation_phase {A} q ps s db' rows (k : M A) w :
  reads q s ->
  run s ps (store w) = Done db' rows ->
  (_ <- create_connection ;; _ <- execute q ps ;; _ <- commit ;;
   _ <- close ;; k) w
  = k (mkWorld db' None
         (log w ++ [EvConnect; EvExecute q ps; EvCommit; EvClose])).
Proof.
  intros Hp Hr. unfold bind at 1. unfold create_connection.
  unfold bind at 1.
  erewrite execute_spec; [|reflexivity|exact Hp|exact Hr].
  unfold bind, commit, close, emit. cbn [store session log].
  now rewrite <- !app_assoc.
Qed.

(** A table under the name as written is the one found. *)
Lemma find_table_exact (db : database) tbl rows :
  db !! tbl = Some rows -> find_table db tbl = Some (tbl, rows).
Proof. intros Hd. unfold find_table. now rewrite Hd. Qed.

Lemma bind_params_bindable ps k :
  forallb bindable ps = true -> bind_params ps k = k.
Proof.
  induction ps as [|v ps IH]; [reflexivity|].
  cbn [forallb]. intros Hb. apply andb_true_iff in Hb as [Hv Hb].
  destruct v as [|z| |t]; cbn [bind_params]; try discriminate; auto.
  cbn [bindable] in Hv. now rewrite Hv, IH.
Qed.

Lemma run_select_by_uuid tbl id rows (db : database) :
  db !! tbl = Some rows ->
  run (Select tbl (Some ("uuid", OText id))) [] db
  = Done db (List.filter (has_uuid id) rows).
Proof.
  intros Hd. unfold run. rewrite (find_table_exact _ _ _ Hd).
  change (where_ok (Some ("uuid", OText id))) with true. cbv iota.
  now rewrite filter_holds_uuid.
Qed.

Lemma run_select_by_user_type tbl t rows (db : database) :
  int64 t = true ->
  db !! tbl = Some rows ->
  run (Select tbl (Some ("user_type", OText (str_int t)))) [] db
  = Done db (List.filter (has_user_type t) rows).
Proof.
  intros Ht Hd. unfold run. rewrite (find_table_exact _ _ _ Hd).
  change (where_ok (Some ("user_type", OText (str_int t)))) with true.
  cbv iota. now rewrite filter_holds_user_type.
Qed.

Lemma run_soft_delete_by_uuid tbl id rows (db : database) :
  db !! tbl = Some rows ->
  run (Update tbl [("deleted", OInt 1)] (Some ("uuid", OText id))) [] db
  = Done (<[tbl := map (fun r => if has_uuid id r then mark_deleted r else r)
                     rows]> db) [].
Proof.
  intros Hd. unfold run. rewrite (find_table_exact _ _ _ Hd).
  change (where_ok (Some ("uuid", OText id))
          && sets_ok [("deleted", OInt 1)]) with true.
  reflexivity.
Qed.

Lemma run_delete_by_uuid tbl id rows (db : database) :
  db !! tbl = Some rows ->
  run (Delete tbl (Some ("uuid", OText id))) [] db
  = Done (<[tbl := List.filter (fun r => negb (has_uuid id r)) rows]> db) [].
Proof.
  intros Hd. unfold run. rewrite (find_table_exact _ _ _ Hd).
  change (where_ok (Some ("uuid", OText id))) with true. reflexivity.
Qed.

(** [fetch_one_by_uuid]: one connection, one SELECT, no commit; the first
    row of the scan that carries the id is the one mapped. *)
Lemma fetch_one_by_uuid_spec {E} `{Entity E} `{RepoMapper E} tbl id rows w :
  sql_identifier tbl = true -> sql_plain id = true ->
  store w !! tbl = Some rows ->
  fetch_one_by_uuid tbl (VStr id) w
  = (match List.filter (has_uuid id) rows with
     | [] => Ok None
     | r :: _ => e <~ map_from_repo (row_record r) ;; Ok (Some e)
     end, after_fetch tbl id w).
Proof.
  intros Ht Hid Hrows. unfold fetch_one_by_uuid. cbn [py_str].
  change ("SELECT * FROM " +:+ tbl +:+ " WHERE uuid = '" +:+ id +:+ "'")
    with (select_by_uuid tbl id).
  erewrite query_phase;
    [|now apply parse_select_by_uuid|exact (run_select_by_uuid _ _ _ _ Hrows)].
  fold (after_fetch tbl id w).
  destruct (List.filter (has_uuid id) rows) as [|r rest];
    cbn [fetchone head map falsy row_record]; [reflexivity|].
  unfold bind, lift, ret. now destruct (map_from_repo _).
Qed.

End RepositoryFacts.

Section RepositoryClaims.
Context `{Platform}.

Lemma filter_no_uuid id rows :
  (forall r, In r rows -> c_uuid r <> VStr id) ->
  List.filter (has_uuid id) rows = [].
Proof.
  induction rows as [|a rows IH]; intros Hno; [reflexivity|].
  cbn [List.filter]. destruct (has_uuid id a) eqn:E.
  - apply has_uuid_iff in E. exfalso. apply (Hno a); [now left | exact E].
  - apply IH. intros r Hr. apply Hno. now right.
Qed.

Lemma filter_first_uuid id (pre post : list row) (r : row) :
  (forall x, In x pre -> c_uuid x <> VStr id) ->
  c_uuid r = VStr id ->
  List.filter (has_uuid id) (pre ++ r :: post)
  = r :: List.filter (has_uuid id) post.
Proof.
  intros Hpre Hr. rewrite List.filter_app, (filter_no_uuid _ _ Hpre).
  cbn [app List.filter]. apply has_uuid_iff in Hr. now rewrite Hr.
Qed.

(** C1, as the code has it: for an id without a quote or a null character
    that no row carries, [delete_one_by_uuid] and [soft_delete_one_by_uuid]
    return none and leave the store as it was; the presence check opens
    one connection, runs its one SELECT and closes it, and nothing else is
    opened, executed or committed. *)
Theorem C1_absent_id_only_presence_check (tbl id : string)
    (rows : list row) (w : world) :
  sql_identifier tbl = true -> sql_plain id = true ->
  store w !! tbl = Some rows ->
  (forall r, In r rows -> c_uuid r <> VStr id) ->
  delete_one_by_uuid (E:=User) tbl (VStr id) w
  = (Ok None,
     mkWorld (store w) None
       (log w ++ [EvConnect; EvExecute (select_by_uuid tbl id) []; EvClose]))
  /\ soft_delete_one_by_uuid (E:=User) tbl (VStr id) w
     = (Ok None,
        mkWorld (store w) None
          (log w ++ [EvConnect; EvExecute (select_by_uuid tbl id) []; EvClose])).
Proof.
  intros Ht Hid Hrows Hno.
  unfold delete_one_by_uuid, soft_delete_one_by_uuid, bind.
  rewrite (fetch_one_by_uuid_spec tbl id rows w Ht Hid Hrows).
  rewrite (filter_no_uuid _ _ Hno). split; reflexivity.
Qed.


Lemma fetch_after_delete (tbl id : string) (rows : list row) (w : world) :
  List.filter (has_uuid id)
    (List.filter (fun r => negb (has_uuid id r)) rows) = [].
Proof.
  induction rows as [|a rows IH]; [reflexivity|].
  cbn [List.filter]. destruct (has_uuid id a) eqn:E; cbn [negb List.filter];
    [exact IH | now rewrite E].
Qed.


Lemma run_update_user_by_uuid tbl id rows (db : database) name em ip ty :
  db !! tbl = Some rows ->
  forallb bindable [name; em; ip; ty] = true ->
  run (Update tbl
         [("user_name", OParam); ("email", OParam);
          ("last_login_ip", OParam); ("user_type", OParam)]
         (Some ("uuid", OText id))) [name; em; ip; ty] db
  = Done (<[tbl := map (fun r => if has_uuid id r
                                 then updated_row name em ip ty r else r)
                     rows]> db) [].
Proof.
  intros Hd Hb. unfold run. rewrite (find_table_exact _ _ _ Hd).
  change (where_ok (Some ("uuid", OText id))
          && sets_ok [("user_name", OParam); ("email", OParam);
                      ("last_login_ip", OParam); ("user_type", OParam)])
    with true.
  cbn [bind_sets option_map]. cbv iota.
  now rewrite (bind_params_bindable _ _ Hb).
Qed.

Lemma bindable_user_params (e : User) :
  bindable_user e ->
  forallb bindable [user_name_ e; email_ e; last_login_ip_ e; user_type_ e]
  = true.
Proof. intros (H1 & H2 & H3 & H4). cbn [forallb]. now rewrite H1, H2, H3, H4. Qed.

Lemma map_unmatched id (f : row -> row) rows :
  (forall r, In r rows -> c_uuid r <> VStr id) ->
  map (fun r => if has_uuid id r then f r else r) rows = rows.
Proof.
  induction rows as [|a rows IH]; intros Hno; [reflexivity|].
  cbn [map]. rewrite IH by (intros r Hr; apply Hno; now right).
  destruct (has_uuid id a) eqn:E; [|reflexivity].
  apply has_uuid_iff in E. exfalso. apply (Hno a); [now left | exact E].
Qed.

Lemma updated_rows_keep_uuid id name em ip ty rows :
  map c_uuid
    (map (fun r => if has_uuid id r then updated_row name em ip ty r else r)
       rows)
  = map c_uuid rows.
Proof.
  rewrite List.map_map. apply List.map_ext. intros r.
  now destruct (has_uuid id r).
Qed.


Lemma map_fixture_rows :
  ip_address (VStr "192.168.1.1") = true ->
  ip_address (VStr "192.168.1.2") = true ->
  map_outcome User_map_from_repo (map row_record [john; jane])
  = Ok [user_john; user_jane].
Proof.
  intros H1 H2.
  vm_compute in H1, H2 |- *. now rewrite H1, H2.
Qed.

(** C8, for the integers SQLite keeps as integers: for a type [t] of the
    signed 64-bit range, [fetch_users_by_user_type] sends one SELECT and
    maps, in scan order, exactly the rows whose [user_type] is the integer
    asked for; it returns the empty list when there is none; on the
    two-row fixture it returns the two users in fixture order. *)
Theorem C8_fetch_users_by_user_type (tbl : string) (t : Z)
    (rows : list row) (w : world) :
  sql_identifier tbl = true ->
  - 2 ^ 63 <= t < 2 ^ 63 ->
  store w !! tbl = Some rows ->
  fetch_users_by_user_type (E:=User) tbl (VInt t) w
  = (map_outcome User_map_from_repo
       (map row_record (List.filter (has_user_type t) rows)),
     mkWorld (store w) None
       (log w ++ [EvConnect; EvExecute (select_by_user_type tbl t) [];
                  EvClose]))
  /\ ((forall r, In r rows -> has_user_type t r = false) ->
      fst (fetch_users_by_user_type (E:=User) tbl (VInt t) w) = Ok [])
  /\ (ip_address (VStr "192.168.1.1") = true ->
      ip_address (VStr "192.168.1.2") = true ->
      rows = [john; jane] -> t = 1 ->
      fst (fetch_users_by_user_type (E:=User) tbl (VInt t) w)
      = Ok [user_john; user_jane]).
Proof.
  intros Ht Hrange Hrows.
  assert (H64 : int64 t = true).
  { unfold int64. apply andb_true_iff. split; [apply Z.leb_le|apply Z.ltb_lt];
      lia. }
  assert (Heq : fetch_users_by_user_type (E:=User) tbl (VInt t) w
    = (map_outcome User_map_from_repo
         (map row_record (List.filter (has_user_type t) rows)),
       mkWorld (store w) None
         (log w ++ [EvConnect; EvExecute (select_by_user_type tbl t) [];
                    EvClose]))).
  { unfold fetch_users_by_user_type. cbn [py_str].
    change ("SELECT * FROM " +:+ tbl +:+ " WHERE user_type = '"
              +:+ str_int t +:+ "'")
      with (select_by_user_type tbl t).
    erewrite query_phase;
      [|now apply parse_select_by_user_type
       |exact (run_select_by_user_type _ _ _ _ H64 Hrows)].
    reflexivity. }
  rewrite Heq. cbn [fst]. split; [reflexivity|]. split.
  - intros Hno. replace (List.filter (has_user_type t) rows) with (@nil row);
      [reflexivity|].
    symmetry. clear Heq Hrows. induction rows as [|a rows IH]; [reflexivity|].
    cbn [List.filter]. rewrite (Hno a) by now left.
    apply IH. intros r Hr. apply Hno. now right.
  - intros H1 H2 -> ->. now apply map_fixture_rows.
Qed.

End RepositoryClaims.

(** ** Further properties of the entity and its mapper *)

Section EntityMore.
Context `{Platform}.

Lemma User_init_ok a b c d e :
  email_valid c -> last_login_ip_valid d -> user_type_valid e ->
  User_init a b c d e = Ok (mkUser a b c d e).
Proof.
  intros Hc Hd He. rewrite User_init_guards. apply email_guard_iff in Hc.
  apply last_login_ip_guard_iff in Hd. apply user_type_guard_ok in He.
  now rewrite Hc, Hd, He.
Qed.

Lemma User_init_inv a b c d e u :
  User_init a b c d e = Ok u ->
  u = mkUser a b c d e
  /\ email_valid c /\ last_login_ip_valid d /\ user_type_valid e.
Proof.
  rewrite User_init_guards.
  destruct (email_guard c) as [[]|] eqn:Ec; [|discriminate].
  destruct (last_login_ip_guard d) as [[]|] eqn:Ed; [|discriminate].
  destruct (user_type_guard e) as [[]|] eqn:Ee; [|discriminate].
  cbn. intros [= <-]. split; [reflexivity|].
  split; [now apply email_guard_iff|].
  split; [now apply last_login_ip_guard_iff | now apply user_type_guard_ok].
Qed.

(** X1: the constructor validates the email, then the address, then the
    type, and reports the first failure; when the three pass it returns the
    user that holds the five arguments, and it returns nothing else. *)
Theorem X1_constructor_validates_in_order (a b c d e : value) :
  (email_valid c -> last_login_ip_valid d -> user_type_valid e ->
   User_init a b c d e = Ok (mkUser a b c d e))
  /\ (~ email_valid c -> User_init a b c d e = Raise (email_error c))
  /\ (email_valid c -> ~ last_login_ip_valid d ->
      User_init a b c d e = Raise ValueError)
  /\ (email_valid c -> last_login_ip_valid d -> ~ user_type_valid e ->
      User_init a b c d e = Raise (user_type_error e))
  /\ (forall u, User_init a b c d e = Ok u ->
      u = mkUser a b c d e
      /\ email_valid c /\ last_login_ip_valid d /\ user_type_valid e).
Proof.
  split; [apply User_init_ok|].
  split; [|split; [|split]]; [| | |apply User_init_inv];
    rewrite User_init_guards.
  - intros Hc. now rewrite (email_guard_invalid _ Hc).
  - intros Hc Hd. apply email_guard_iff in Hc.
    now rewrite Hc, (last_login_ip_guard_invalid _ Hd).
  - intros Hc Hd He. apply email_guard_iff in Hc.
    apply last_login_ip_guard_iff in Hd.
    now rewrite Hc, Hd, (user_type_guard_invalid _ He).
Qed.

(** X2: the class invariant. Whatever sequence of assignments a user has
    gone through since its construction, failed ones included, its email,
    address and type satisfy their validation. *)
Theorem X2_constructed_users_stay_valid (u : User) :
  constructed u -> valid_user u.
Proof.
  intros Hu. destruct (constructed_guards_pass u Hu) as (He & Hi & Ht).
  split; [now apply email_guard_iff|].
  split; [now apply last_login_ip_guard_iff | now apply user_type_guard_ok].
Qed.

Lemma count_char_app c s t :
  count_char c (s +:+ t) = (count_char c s + count_char c t)%nat.
Proof.
  induction s as [|x s IH]; [reflexivity|].
  cbn [String.append count_char]. rewrite IH. lia.
Qed.

Lemma count_char_outside p c s :
  all_chars p s = true -> p c = false -> count_char c s = 0%nat.
Proof.
  intros Hs Hc. induction s as [|x s IH]; [reflexivity|].
  cbn in Hs. apply andb_true_iff in Hs as [Hx Hs].
  cbn [count_char]. rewrite (IH Hs).
  destruct (Ascii.eqb_spec x c) as [->|_]; [congruence | reflexivity].
Qed.

Lemma is_word_inside c : is_word c = true -> is_word_dot_dash c = true.
Proof. intros Hc. unfold is_word_dot_dash. now rewrite Hc. Qed.

(** X3: an email the setter accepts holds exactly one at sign and no
    space; a newline can only be its last character. *)
Theorem X3_accepted_email_has_one_at_sign (u : User) (s : string) :
  set_email (VStr s) u = (Ok tt, with_email (VStr s) u) ->
  count_char "@" s = 1%nat
  /\ count_char " " s = 0%nat
  /\ (count_char "010" s <= 1)%nat.
Proof.
  intros Hset.
  assert (Hm : email_matches s).
  { unfold set_email, assign in Hset.
    destruct (email_guard (VStr s)) as [[]|] eqn:Eg; [|discriminate].
    apply email_guard_inv in Eg as (s' & [= <-] & Hm). exact Hm. }
  apply email_matches_shape in Hm
    as (l & d & t & nl & -> & _ & Hl & _ & Hd & _ & Ht & Hnl).
  apply (all_chars_weaken _ _ _ is_word_inside) in Ht.
  assert (Hc : forall c, is_word_dot_dash c = false ->
                 count_char c l = 0%nat /\ count_char c d = 0%nat
                 /\ count_char c t = 0%nat)
    by (intros c Hc; repeat split; eapply count_char_outside; eauto).
  destruct (Hc "@"%char eq_refl) as (Al & Ad & At).
  destruct (Hc " "%char eq_refl) as (Sl & Sd & St).
  destruct (Hc "010"%char eq_refl) as (Nl & Nd & Nt).
  repeat (rewrite ?count_char_app; cbn [count_char Ascii.eqb Bool.eqb]).
  rewrite Al, Ad, At, Sl, Sd, St, Nl, Nd, Nt.
  destruct Hnl as [-> | ->]; cbn; lia.
Qed.

(** X4: the [$] of the pattern lets one final newline through. A string
    the setter accepts is accepted again with a newline appended, and is
    stored with it. *)
Theorem X4_email_with_final_newline (u : User) (l d t : string) :
  l <> "" -> all_chars is_word_dot_dash l = true ->
  d <> "" -> all_chars is_word_dot_dash d = true ->
  t <> "" -> all_chars is_word t = true ->
  let s := l +:+ String "@" (d +:+ String "." (t +:+ String "010" "")) in
  set_email (VStr s) u = (Ok tt, with_email (VStr s) u)
  /\ email_ (with_email (VStr s) u) = VStr s.
Proof.
  intros Hl1 Hl2 Hd1 Hd2 Ht1 Ht2 s. split; [|reflexivity].
  unfold set_email, assign. rewrite email_guard_ok; [reflexivity|].
  apply email_matches_shape. exists l, d, t, (String "010" "").
  repeat split; auto.
Qed.

(** X5: mapping a record to a user and the user back to a record keeps the
    five mapped entries, in the mapper's order, and drops every other
    column; the record obtained maps to the same user again. *)
Theorem X5_record_round_trip (r : record) (u : User) :
  User_map_from_repo r = Ok u ->
  map fst (User_map_to_repo u) = User_keys
  /\ (forall k, In k User_keys ->
      record_get (User_map_to_repo u) k = record_get r k)
  /\ User_map_from_repo (User_map_to_repo u) = Ok u.
Proof.
  unfold User_map_from_repo at 1.
  destruct (record_get r "uuid") as [v1|] eqn:E1; [|discriminate].
  destruct (record_get r "user_name") as [v2|] eqn:E2; [|discriminate].
  destruct (record_get r "email") as [v3|] eqn:E3; [|discriminate].
  destruct (record_get r "last_login_ip") as [v4|] eqn:E4; [|discriminate].
  destruct (record_get r "user_type") as [v5|] eqn:E5; [|discriminate].
  cbn [obind]. intros Hinit.
  destruct (User_init_inv _ _ _ _ _ _ Hinit) as (-> & Hc & Hd & He).
  split; [reflexivity|]. split.
  - intros k [<-|[<-|[<-|[<-|[<-|[]]]]]]; cbn; congruence.
  - unfold User_map_from_repo, User_map_to_repo. cbn.
    now apply User_init_ok.
Qed.

End EntityMore.

(** ** Further properties of the repository *)

Lemma lex_idle_identifier tbl :
  tbl <> "" -> all_chars ascii_word tbl = true ->
  lex LIdle tbl = Tokens [TWord tbl].
Proof.
  intros Hne Hw. rewrite <- (append_nil_r tbl) at 1.
  rewrite lex_app, lex_steps_idle_word by assumption. reflexivity.
Qed.

Lemma lex_select_all tbl :
  tbl <> "" -> all_chars ascii_word tbl = true ->
  lex LIdle (select_all tbl)
  = Tokens [TWord "SELECT"; TSym "*"; TWord "FROM"; TWord tbl].
Proof.
  intros Hne Hw. unfold select_all. lex_fixed.
  now rewrite lex_idle_identifier.
Qed.

Lemma lex_select_not_deleted tbl :
  tbl <> "" -> all_chars ascii_word tbl = true ->
  lex LIdle (select_not_deleted tbl)
  = Tokens [TWord "SELECT"; TSym "*"; TWord "FROM"; TWord tbl; TWord "WHERE";
            TWord "deleted"; TSym "="; TWord "0"].
Proof.
  intros Hne Hw. unfold select_not_deleted. lex_fixed.
  rewrite lex_app, lex_steps_idle_word by assumption; cbn [fst snd].
  vm_compute. reflexivity.
Qed.

Lemma bare_char_plain c :
  bare_char c = true -> is_quote c = false /\ is_nul c = false.
Proof.
  destruct c as [[] [] [] [] [] [] [] []]; vm_compute; intros;
    try discriminate; auto.
Qed.

Lemma bare_no_nul s : sql_bare s = true -> has_nul s = false.
Proof.
  intros Hs. unfold has_nul. apply negb_false_iff.
  revert Hs. apply all_chars_weaken. intros c Hc.
  destruct (bare_char_plain c Hc) as [_ Hn]. now rewrite Hn.
Qed.

Lemma lex_idle_outside c :
  bare_char c = true -> outside_literal (snd (lex_idle c)).
Proof.
  intros Hc. destruct (bare_char_plain c Hc) as [Hq _].
  unfold lex_idle. rewrite Hq. unfold bare_char in Hc.
  destruct (is_space c); [exact I|].
  destruct (ascii_word c); [exact I|].
  cbn [orb] in Hc. rewrite Hc. exact I.
Qed.

Lemma lex_step_outside st c :
  bare_char c = true -> outside_literal st ->
  outside_literal (snd (lex_step st c)).
Proof.
  intros Hc Hst. destruct st as [|w|t|t|]; try contradiction; cbn [lex_step].
  - now apply lex_idle_outside.
  - destruct (ascii_word c); [exact I|].
    pose proof (lex_idle_outside c Hc). now destruct (lex_idle c).
Qed.

Lemma lex_steps_outside p : forall st,
  sql_bare p = true -> outside_literal st ->
  outside_literal (snd (lex_steps st p)).
Proof.
  induction p as [|c p IH]; intros st Hp Hst; [exact Hst|].
  cbn in Hp. apply andb_true_iff in Hp as [Hc Hp]. cbn [lex_steps].
  pose proof (lex_step_outside st c Hc Hst) as Hstep.
  destruct (lex_step st c) as [out st']. cbn [snd] in Hstep.
  specialize (IH st' Hp Hstep).
  now destruct (lex_steps st' p).
Qed.

(** A quote met outside a literal opens one; the text ends before it is
    closed. *)
Lemma lex_lone_quote st : outside_literal st -> lex st "'" = Unterminated.
Proof. destruct st; [reflexivity | reflexivity | contradiction..]. Qed.

Lemma lex_open_tail b st :
  sql_bare b = true -> outside_literal st ->
  lex st (b +:+ "'") = Unterminated.
Proof.
  intros Hb Hst. rewrite lex_app.
  now rewrite (lex_lone_quote _ (lex_steps_outside b st Hb Hst)).
Qed.

Lemma lex_quote_tail a b :
  sql_bare b = true -> lex (LQuote a) (b +:+ "'") = Unterminated.
Proof.
  destruct b as [|c b]; [reflexivity|]. intros Hb.
  cbn in Hb. apply andb_true_iff in Hb as [Hc Hb].
  destruct (bare_char_plain c Hc) as [Hq _].
  cbn [String.append lex lex_step]. rewrite Hq.
  pose proof (lex_idle_outside c Hc) as Hout.
  destruct (lex_idle c) as [out st']. cbn [snd] in Hout.
  now rewrite (lex_open_tail b st' Hb Hout).
Qed.

(** A literal whose text holds one quote character, followed by words and
    known punctuation only: the literal ends at that quote, and the quote
    meant to close it opens a second literal that the text never closes. *)
Lemma lex_broken_literal pre a b :
  sql_bare pre = true -> sql_plain a = true -> sql_bare b = true ->
  lex LIdle (pre +:+ String "'" ((a +:+ String "'" b) +:+ "'"))
  = Unterminated.
Proof.
  intros Hpre Ha Hb. rewrite lex_app.
  pose proof (lex_steps_outside pre LIdle Hpre I) as Hout.
  destruct (lex_steps LIdle pre) as [out st]. cbn [fst snd] in *.
  assert (Hin : lex (LText "") ((a +:+ String "'" b) +:+ "'")
                = Unterminated).
  { rewrite append_assoc. cbn [String.append].
    rewrite lex_app, lex_steps_text by assumption. cbn [fst snd].
    cbn [String.append lex lex_step is_quote Ascii.eqb Bool.eqb].
    now rewrite lex_quote_tail. }
  assert (Hopen : forall X,
             lex st (String "'" X)
             = lexed_after (fst (lex_step st "'")) (lex (LText "") X)).
  { intros X. destruct st as [|w|t|t|]; try contradiction; reflexivity. }
  now rewrite Hopen, Hin.
Qed.

Section RepositoryMore.
Context `{Platform}.

Lemma parse_select_all tbl :
  sql_identifier tbl = true ->
  reads (select_all tbl) (Select tbl None).
Proof.
  intros Ht. destruct (sql_identifier_word _ Ht) as [Hne Hw].
  split; [unfold select_all; no_nul|].
  unfold parse_sql. rewrite lex_select_all by assumption.
  cbn. unfold table_name_of. now rewrite Ht.
Qed.

Lemma parse_select_not_deleted tbl :
  sql_identifier tbl = true ->
  reads (select_not_deleted tbl) (Select tbl (Some ("deleted", OInt 0))).
Proof.
  intros Ht. destruct (sql_identifier_word _ Ht) as [Hne Hw].
  split; [unfold select_not_deleted; no_nul|].
  unfold parse_sql. rewrite lex_select_not_deleted by assumption.
  cbn. unfold table_name_of. now rewrite Ht.
Qed.

Lemma filter_all {A} (l : list A) : List.filter (fun _ => true) l = l.
Proof. induction l as [|a l IH]; [reflexivity|]. cbn. now rewrite IH. Qed.

Lemma run_scan tbl (b : bool) rows (db : database) :
  db !! tbl = Some rows ->
  run (Select tbl (if b then None else Some ("deleted", OInt 0))) [] db
  = Done db (scanned b rows).
Proof.
  intros Hd. unfold run. rewrite (find_table_exact _ _ _ Hd).
  destruct b; cbn [scanned].
  - cbn [where_ok]. now rewrite <- (filter_all rows) at 2.
  - change (where_ok (Some ("deleted", OInt 0))) with true. reflexivity.
Qed.

Lemma fetch_all_spec {E} `{Entity E} `{RepoMapper E} tbl (b : bool) rows w :
  sql_identifier tbl = true ->
  store w !! tbl = Some rows ->
  fetch_all tbl b w
  = (map_outcome map_from_repo (map row_record (scanned b rows)),
     mkWorld (store w) None
       (log w ++ [EvConnect;
                  EvExecute (if b then select_all tbl
                             else select_not_deleted tbl) [];
                  EvClose])).
Proof.
  intros Ht Hrows. unfold fetch_all.
  change ("SELECT * FROM " +:+ tbl +:+ " WHERE deleted = 0")
    with (select_not_deleted tbl).
  change ("SELECT * FROM " +:+ tbl) with (select_all tbl).
  erewrite query_phase; [reflexivity| |exact (run_scan _ b _ _ Hrows)].
  destruct b; [now apply parse_select_all | now apply parse_select_not_deleted].
Qed.

(** X6: [fetch_all] sends one SELECT on a connection it closes and commits
    nothing. With [include_deleted] it maps every row of the table, without
    it the rows whose [deleted] flag is 0, in scan order; a row the mapper
    refuses makes the whole call raise; an empty scan gives the empty
    list. *)
Theorem X6_fetch_all {E} `{Entity E} `{RepoMapper E}
    (tbl : string) (include_deleted : bool) (rows : list row) (w : world) :
  sql_identifier tbl = true ->
  store w !! tbl = Some rows ->
  fetch_all tbl include_deleted w
  = (map_outcome map_from_repo
       (map row_record
          (if include_deleted then rows else List.filter not_deleted rows)),
     mkWorld (store w) None
       (log w ++ [EvConnect;
                  EvExecute (if include_deleted then select_all tbl
                             else select_not_deleted tbl) [];
                  EvClose]))
  /\ ((forall r, In r rows -> not_deleted r = false) ->
      fst (fetch_all tbl false w) = Ok []).
Proof.
  intros Ht Hrows. split; [exact (fetch_all_spec tbl _ rows w Ht Hrows)|].
  intros Hno. rewrite (fetch_all_spec tbl false rows w Ht Hrows).
  cbn [fst scanned].
  replace (List.filter not_deleted rows) with (@nil row); [reflexivity|].
  symmetry. clear Hrows. induction rows as [|a rows IH]; [reflexivity|].
  cbn [List.filter]. rewrite (Hno a) by now left.
  apply IH. intros r Hr. apply Hno. now right.
Qed.

Lemma execute_store q ps w : store (snd (execute q ps w)) = store w.
Proof.
  unfold execute, emit. destruct (session w) as [db|]; [|reflexivity].
  destruct (has_nul q); [reflexivity|].
  destruct (sqlite_answer q ps db); try reflexivity.
  now destruct (foreign_statement q ps db).
Qed.

Lemma execute_log q ps w :
  log (snd (execute q ps w)) = log w ++ [EvExecute q ps].
Proof.
  unfold execute, emit. destruct (session w) as [db|]; [|reflexivity].
  destruct (has_nul q); [reflexivity|].
  destruct (sqlite_answer q ps db); try reflexivity.
  now destruct (foreign_statement q ps db).
Qed.

Lemma no_commit_in (evs : list event) :
  forallb (fun e => match e with EvCommit => false | _ => true end) evs = true ->
  ~ In EvCommit evs.
Proof.
  intros Hall Hin. rewrite forallb_forall in Hall.
  now specialize (Hall _ Hin).
Qed.

Lemma read_only_intro {A} (m : M A) :
  (forall w, exists r w',
      m w = (r, w') /\ store w' = store w
      /\ exists evs, log w' = log w ++ evs /\ ~ In EvCommit evs) ->
  read_only m.
Proof.
  intros Hm w. destruct (Hm w) as (r & w' & -> & Hs & Hl). now split.
Qed.

(** Opening a connection and executing one statement on it. *)
Lemma connect_execute q w :
  exists r w1,
    (_ <- create_connection ;; execute q []) w = (r, w1)
    /\ store w1 = store w
    /\ log w1 = log w ++ [EvConnect; EvExecute q []].
Proof.
  unfold bind. cbn [create_connection].
  pose proof (execute_store q []
                (mkWorld (store w) (Some (store w)) (log w ++ [EvConnect])))
    as Hs.
  pose proof (execute_log q []
                (mkWorld (store w) (Some (store w)) (log w ++ [EvConnect])))
    as Hl.
  cbn [store log] in Hs, Hl. rewrite <- app_assoc in Hl.
  destruct (execute q [] _) as [r w1]. exists r, w1.
  split; [reflexivity|]. split; [exact Hs | exact Hl].
Qed.

Ltac after_connect_execute q w r w1 Hs Hl :=
  let E := fresh "E" in
  destruct (connect_execute q w) as (r & w1 & E & Hs & Hl);
  unfold bind in E; cbn [create_connection] in E;
  unfold bind; cbn [create_connection]; rewrite E.

Ltac close_read Hs Hl :=
  eexists _, _; split; [reflexivity|]; cbn [store log];
  split; [exact Hs|];
  eexists; split; [rewrite Hl, <- app_assoc; reflexivity
                  |now apply no_commit_in].

(** X7: the three reads never write. For every table name, every id or
    type asked for and every state of the database, [fetch_one_by_uuid],
    [fetch_users_by_user_type] and [fetch_all] leave the committed store as
    it was and commit nothing, whether they return or raise. *)
Theorem X7_reads_never_write {E} `{Entity E} `{RepoMapper E}
    (tbl : string) (v : value) (b : bool) :
  read_only (fetch_one_by_uuid tbl v)
  /\ read_only (fetch_users_by_user_type tbl v)
  /\ read_only (fetch_all tbl b).
Proof.
  split; [|split]; apply read_only_intro; intros w.
  - unfold fetch_one_by_uuid.
    match goal with
    | |- context [execute ?q []] =>
        after_connect_execute q w r w1 Hs Hl
    end.
    destruct r as [cr|x]; unfold close, ret, lift.
    + destruct cr as [|[|c0 r0] rest]; cbn [fetchone head falsy];
        [| |destruct (map_from_repo _)]; close_read Hs Hl.
    + eexists _, _. split; [reflexivity|]. split; [exact Hs|].
      eexists. split; [exact Hl | now apply no_commit_in].
  - unfold fetch_users_by_user_type.
    match goal with
    | |- context [execute ?q []] =>
        after_connect_execute q w r w1 Hs Hl
    end.
    destruct r as [cr|x]; unfold close, ret, lift.
    + close_read Hs Hl.
    + eexists _, _. split; [reflexivity|]. split; [exact Hs|].
      eexists. split; [exact Hl | now apply no_commit_in].
  - unfold fetch_all.
    match goal with
    | |- context [execute ?q []] =>
        after_connect_execute q w r w1 Hs Hl
    end.
    destruct r as [cr|x]; unfold close, ret, lift.
    + close_read Hs Hl.
    + eexists _, _. split; [reflexivity|]. split; [exact Hs|].
      eexists. split; [exact Hl | now apply no_commit_in].
Qed.

Lemma fetch_one_outcome {E} `{Entity E} `{RepoMapper E} tbl v w :
  exists r w',
    fetch_one_by_uuid tbl v w = (r, w')
    /\ store w' = store w
    /\ (forall a, r = Ok a -> session w' = None).
Proof.
  unfold fetch_one_by_uuid.
  match goal with
  | |- context [execute ?q []] => after_connect_execute q w r w1 Hs Hl
  end.
  destruct r as [cr|x]; unfold close, ret, lift.
  - destruct cr as [|[|c0 r0] rest]; cbn [fetchone head falsy];
      [| |destruct (map_from_repo _)];
      (eexists _, _; split; [reflexivity|]; cbn [store session];
       split; [exact Hs|]; intros ? ?; try discriminate; reflexivity).
  - eexists _, _. split; [reflexivity|]. split; [exact Hs|]. discriminate.
Qed.

(** A statement sent on a connection of its own, committed and closed, for
    every statement and every state: when the call returns, the connection
    is closed. *)
Lemma mutation_outcome {A} q ps (a : A) w :
  exists r w',
    (_ <- create_connection ;; _ <- execute q ps ;; _ <- commit ;;
     _ <- close ;; ret a) w = (r, w')
    /\ (forall b, r = Ok b -> session w' = None).
Proof.
  unfold bind. cbn [create_connection].
  destruct (execute q ps _) as [[cr|x] w1].
  - destruct (commit w1) as [[[]|x] w2]; unfold close, ret;
      eexists _, _; (split; [reflexivity|]); [reflexivity | discriminate].
  - eexists _, _. split; [reflexivity | discriminate].
Qed.

Lemma closes_intro {A} (m : M A) :
  (forall w, exists r w',
      m w = (r, w') /\ (forall a, r = Ok a -> session w' = None)) ->
  closes_on_return m.
Proof.
  intros Hm w a w' Hrun. destruct (Hm w) as (r & w'' & E & Hc).
  rewrite E in Hrun. injection Hrun as -> ->. now apply (Hc a).
Qed.

(** X8: no operation leaks its connection on a normal return. Whenever
    [fetch_one_by_uuid], [fetch_users_by_user_type], [fetch_all],
    [soft_delete_one_by_uuid], [delete_one_by_uuid] or [update_one]
    returns, for any argument and any state, no connection is open. *)
Theorem X8_connection_closed_on_return {E} `{Entity E} `{RepoMapper E}
    (tbl : string) (v : value) (b : bool) (e : E) :
  closes_on_return (fetch_one_by_uuid tbl v)
  /\ closes_on_return (fetch_users_by_user_type tbl v)
  /\ closes_on_return (fetch_all tbl b)
  /\ closes_on_return (soft_delete_one_by_uuid tbl v)
  /\ closes_on_return (delete_one_by_uuid tbl v)
  /\ closes_on_return (update_one tbl e).
Proof.
  repeat split; apply closes_intro; intros w.
  - destruct (fetch_one_outcome tbl v w) as (r & w' & E1 & _ & Hc). eauto.
  - unfold fetch_users_by_user_type.
    match goal with
    | |- context [execute ?q []] => after_connect_execute q w r w1 Hs Hl
    end.
    destruct r as [cr|x]; unfold close, ret, lift;
      eexists _, _; (split; [reflexivity|]); [reflexivity | discriminate].
  - unfold fetch_all.
    match goal with
    | |- context [execute ?q []] => after_connect_execute q w r w1 Hs Hl
    end.
    destruct r as [cr|x]; unfold close, ret, lift;
      eexists _, _; (split; [reflexivity|]); [reflexivity | discriminate].
  - unfold soft_delete_one_by_uuid. unfold bind at 1.
    destruct (fetch_one_outcome tbl v w) as (r & w' & E1 & _ & Hc).
    rewrite E1. destruct r as [[e0|]|x].
    + match goal with
      | |- context [execute ?q ?ps] =>
          destruct (mutation_outcome q ps (Some e0) w')
            as (r2 & w2 & E2 & Hc2)
      end.
      rewrite E2. eauto.
    + unfold ret. eauto.
    + eexists _, _. split; [reflexivity | discriminate].
  - unfold delete_one_by_uuid. unfold bind at 1.
    destruct (fetch_one_outcome tbl v w) as (r & w' & E1 & _ & Hc).
    rewrite E1. destruct r as [[e0|]|x].
    + match goal with
      | |- context [execute ?q ?ps] =>
          destruct (mutation_outcome q ps (Some e0) w')
            as (r2 & w2 & E2 & Hc2)
      end.
      rewrite E2. eauto.
    + unfold ret. eauto.
    + eexists _, _. split; [reflexivity | discriminate].
  - unfold update_one. unfold bind at 1. cbn [create_connection].
    unfold bind at 1. unfold lift at 1.
    destruct (map_outcome _ _) as [ps|x];
      [|eexists _, _; split; [reflexivity | discriminate]].
    unfold bind at 1.
    destruct (execute _ ps _) as [[cr|x] w1];
      [|eexists _, _; split; [reflexivity | discriminate]].
    unfold bind at 1.
    destruct (commit w1) as [[[]|x] w2];
      [|eexists _, _; split; [reflexivity | discriminate]].
    unfold bind at 1. cbn [close].
    destruct (fetch_one_outcome tbl (entity_uuid e)
                (mkWorld (store w2) None (log w2 ++ [EvClose])))
      as (r & w' & E1 & _ & Hc).
    rewrite E1. eauto.
Qed.

Lemma execute_unterminated q ps db w :
  session w = Some db -> has_nul q = false -> unterminated q = true ->
  execute q ps w = (Raise OperationalError, emit (EvExecute q ps) w).
Proof.
  intros Hs Hn Hu. unfold execute, sqlite_answer, parse_sql.
  rewrite Hs, Hn, Hu. unfold unterminated in Hu.
  now destruct (lex LIdle q).
Qed.

Lemma execute_refused q ps s db x w :
  session w = Some db -> reads q s -> run s ps db = Fails x ->
  execute q ps w = (Raise x, emit (EvExecute q ps) w).
Proof.
  intros Hs [Hn Hp] Hr. unfold execute, sqlite_answer.
  now rewrite Hs, Hn, Hp, Hr.
Qed.

(** A statement that fails on a fresh connection: the exception leaves the
    method at once, before any commit or close. *)
Lemma failing_statement {B} q ps (k : list record -> M B) w :
  execute q ps (mkWorld (store w) (Some (store w)) (log w ++ [EvConnect]))
  = (Raise OperationalError,
     emit (EvExecute q ps)
       (mkWorld (store w) (Some (store w)) (log w ++ [EvConnect]))) ->
  (_ <- create_connection ;; cr <- execute q ps ;; k cr) w
  = (Raise OperationalError, left_open q ps w).
Proof.
  intros Hx. unfold bind. cbn [create_connection]. rewrite Hx.
  unfold left_open, emit. cbn [store session log].
  now rewrite <- app_assoc.
Qed.

Lemma same_name_refl tbl : same_name tbl tbl = true.
Proof. apply String.eqb_refl. Qed.

Lemma find_table_unknown (db : database) tbl :
  unknown_table db tbl -> find_table db tbl = None.
Proof.
  intros Hu. unfold find_table. destruct (db !! tbl) as [rows|] eqn:Hd.
  - specialize (Hu tbl (mk_is_Some _ _ Hd)).
    now rewrite same_name_refl in Hu.
  - destruct (List.find _ _) as [[k rows]|] eqn:Hf; [|reflexivity].
    apply List.find_some in Hf as [Hin Hs]. cbn [fst] in Hs.
    apply list_elem_of_In, elem_of_map_to_list in Hin.
    specialize (Hu k (mk_is_Some _ _ Hin)). congruence.
Qed.

(** The statements of the repository on a name that stands for no table:
    SQLite does not prepare them. *)
Lemma run_missing_table s ps (db : database) tbl :
  unknown_table db tbl -> self_resolved tbl = false ->
  s = Select tbl None
  \/ (exists col op, known_col col = true /\ op <> OParam
        /\ (s = Select tbl (Some (col, op))
            \/ s = Delete tbl (Some (col, op))
            \/ exists sets, sets_ok sets = true
                            /\ s = Update tbl sets (Some (col, op)))) ->
  run s ps db = Fails OperationalError.
Proof.
  intros Hu Hself Hs. apply find_table_unknown in Hu.
  assert (Hno : no_table tbl = Fails OperationalError)
    by (unfold no_table; now rewrite Hself).
  destruct Hs as [->|(col & op & Hcol & Hop & Hs)].
  - unfold run. cbn [where_ok]. now rewrite Hu.
  - assert (Hwh : where_ok (Some (col, op)) = true)
      by (cbn [where_ok]; rewrite Hcol; now destruct op).
    destruct Hs as [->|[->|(sets & Hsets & ->)]];
      unfold run; rewrite Hwh, ?Hsets, Hu; exact Hno.
Qed.

(** X9: on a database that has no table of the repository's name, in any
    letter case, and when SQLite does not resolve the name by itself,
    every lookup (by an id without a quote or a null character, by a type
    of the 64-bit range, or of the whole table) and both deletes raise
    [OperationalError] at their first statement; the exception leaves the
    method before [close], so the connection stays open, and nothing is
    committed. *)
Theorem X9_missing_table {E} `{Entity E} `{RepoMapper E}
    (tbl id : string) (t : Z) (b : bool) (w : world) :
  sql_identifier tbl = true -> sql_plain id = true ->
  - 2 ^ 63 <= t < 2 ^ 63 ->
  unknown_table (store w) tbl -> self_resolved tbl = false ->
  fetch_one_by_uuid tbl (VStr id) w
  = (Raise OperationalError, left_open (select_by_uuid tbl id) [] w)
  /\ soft_delete_one_by_uuid tbl (VStr id) w
     = (Raise OperationalError, left_open (select_by_uuid tbl id) [] w)
  /\ delete_one_by_uuid tbl (VStr id) w
     = (Raise OperationalError, left_open (select_by_uuid tbl id) [] w)
  /\ fetch_users_by_user_type tbl (VInt t) w
     = (Raise OperationalError, left_open (select_by_user_type tbl t) [] w)
  /\ fetch_all tbl b w
     = (Raise OperationalError,
        left_open (if b then select_all tbl else select_not_deleted tbl) [] w).
Proof.
  intros Ht Hid _ Hno Hself.
  assert (Hwhere : forall col op, known_col col = true -> op <> OParam ->
            run (Select tbl (Some (col, op))) [] (store w)
            = Fails OperationalError).
  { intros col op Hcol Hop. apply (run_missing_table _ _ _ tbl Hno Hself).
    right. exists col, op. auto. }
  assert (Hfetch : fetch_one_by_uuid tbl (VStr id) w
            = (Raise OperationalError, left_open (select_by_uuid tbl id) [] w)).
  { unfold fetch_one_by_uuid. cbn [py_str].
    change ("SELECT * FROM " +:+ tbl +:+ " WHERE uuid = '" +:+ id +:+ "'")
      with (select_by_uuid tbl id).
    apply failing_statement.
    eapply execute_refused;
      [reflexivity | now apply parse_select_by_uuid
      | now apply Hwhere]. }
  split; [exact Hfetch|].
  split; [unfold soft_delete_one_by_uuid, bind; now rewrite Hfetch|].
  split; [unfold delete_one_by_uuid, bind; now rewrite Hfetch|].
  split.
  - unfold fetch_users_by_user_type. cbn [py_str].
    change ("SELECT * FROM " +:+ tbl +:+ " WHERE user_type = '"
              +:+ str_int t +:+ "'")
      with (select_by_user_type tbl t).
    apply failing_statement.
    eapply execute_refused;
      [reflexivity | now apply parse_select_by_user_type
      | now apply Hwhere].
  - unfold fetch_all.
    change ("SELECT * FROM " +:+ tbl +:+ " WHERE deleted = 0")
      with (select_not_deleted tbl).
    change ("SELECT * FROM " +:+ tbl) with (select_all tbl).
    apply failing_statement.
    destruct b.
    + eapply execute_refused;
        [reflexivity | now apply parse_select_all|].
      apply (run_missing_table _ _ _ tbl Hno Hself). now left.
    + eapply execute_refused;
        [reflexivity | now apply parse_select_not_deleted
        | now apply Hwhere].
Qed.

Lemma select_by_uuid_split tbl id :
  select_by_uuid tbl id
  = ("SELECT * FROM " +:+ tbl +:+ " WHERE uuid = ")
      +:+ String "'" (id +:+ "'").
Proof. unfold select_by_uuid. rewrite !append_assoc. reflexivity. Qed.

Lemma update_user_by_uuid_split tbl id :
  update_user_by_uuid tbl id
  = ("UPDATE " +:+ tbl
       +:+ " SET user_name = ?, email = ?, last_login_ip = ?, user_type = ?"
       +:+ " WHERE uuid = ")
      +:+ String "'" (id +:+ "'").
Proof. unfold update_user_by_uuid. rewrite !append_assoc. reflexivity. Qed.

Lemma quote_in_select tbl a b :
  sql_bare tbl = true -> sql_plain a = true -> sql_bare b = true ->
  has_nul (select_by_uuid tbl (a +:+ String "'" b)) = false
  /\ unterminated (select_by_uuid tbl (a +:+ String "'" b)) = true.
Proof.
  intros Ht Ha Hb. split.
  - unfold select_by_uuid.
    rewrite !has_nul_app, (bare_no_nul tbl Ht), (plain_no_nul a Ha).
    change (String "'" b) with ("'" +:+ b).
    rewrite has_nul_app, (bare_no_nul b Hb). reflexivity.
  - unfold unterminated.
    rewrite select_by_uuid_split, lex_broken_literal; auto.
    unfold sql_bare in *. rewrite !all_chars_app, Ht. reflexivity.
Qed.

Lemma quote_in_update tbl a b :
  sql_bare tbl = true -> sql_plain a = true -> sql_bare b = true ->
  has_nul (update_user_by_uuid tbl (a +:+ String "'" b)) = false
  /\ unterminated (update_user_by_uuid tbl (a +:+ String "'" b)) = true.
Proof.
  intros Ht Ha Hb. split.
  - unfold update_user_by_uuid.
    rewrite !has_nul_app, (bare_no_nul tbl Ht), (plain_no_nul a Ha).
    change (String "'" b) with ("'" +:+ b).
    rewrite has_nul_app, (bare_no_nul b Hb). reflexivity.
  - unfold unterminated.
    rewrite update_user_by_uuid_split, lex_broken_literal; auto.
    unfold sql_bare in *. rewrite !all_chars_app, Ht. reflexivity.
Qed.

(** X10: an id that holds a quote character, with nothing after it but
    words, spaces and the punctuation [* = , ?], breaks every operation
    that looks a row up by uuid: the id is pasted between the quotes of
    the statement text, its quote ends the literal, and the quote meant to
    close it opens a literal that is never closed. [fetch_one_by_uuid] and
    both deletes raise [OperationalError], leave the connection open and
    the store untouched, also when a row carries that very id. (What
    follows the quote matters: a comment there would hide the last quote
    from SQLite.) *)
Theorem X10_quote_in_id {E} `{Entity E} `{RepoMapper E}
    (tbl a b : string) (w : world) :
  sql_bare tbl = true -> sql_plain a = true -> sql_bare b = true ->
  let id := a +:+ String "'" b in
  fetch_one_by_uuid tbl (VStr id) w
  = (Raise OperationalError, left_open (select_by_uuid tbl id) [] w)
  /\ soft_delete_one_by_uuid tbl (VStr id) w
     = (Raise OperationalError, left_open (select_by_uuid tbl id) [] w)
  /\ delete_one_by_uuid tbl (VStr id) w
     = (Raise OperationalError, left_open (select_by_uuid tbl id) [] w).
Proof.
  intros Ht Ha Hb id.
  assert (Hfetch : fetch_one_by_uuid tbl (VStr id) w
            = (Raise OperationalError, left_open (select_by_uuid tbl id) [] w)).
  { unfold fetch_one_by_uuid. cbn [py_str].
    change ("SELECT * FROM " +:+ tbl +:+ " WHERE uuid = '" +:+ id +:+ "'")
      with (select_by_uuid tbl id).
    destruct (quote_in_select tbl a b Ht Ha Hb) as [Hn Hu].
    apply failing_statement.
    now apply (execute_unterminated _ _ (store w)). }
  split; [exact Hfetch|].
  split; [unfold soft_delete_one_by_uuid, bind; now rewrite Hfetch|].
  unfold delete_one_by_uuid, bind; now rewrite Hfetch.
Qed.

(** X11: when its UPDATE fails, [update_one] raises [OperationalError]
    before the commit: nothing is written, the connection stays open and
    the entity is not fetched again. This is what happens on a database
    that has no table of the name, and for a user whose id holds a quote
    character with nothing after it but words, spaces and known
    punctuation; in both cases whatever the four other fields are, the
    statement being refused before they are bound. *)
Theorem X11_update_one_failing_statement (tbl : string) (e : User) (w : world) :
  (forall id, entity_uuid_ e = VStr id ->
     sql_identifier tbl = true -> sql_plain id = true ->
     unknown_table (store w) tbl -> self_resolved tbl = false ->
     update_one (E:=User) tbl e w
     = (Raise OperationalError,
        left_open (update_user_by_uuid tbl id)
          [user_name_ e; email_ e; last_login_ip_ e; user_type_ e] w))
  /\ (forall a b, entity_uuid_ e = VStr (a +:+ String "'" b) ->
      sql_bare tbl = true -> sql_plain a = true -> sql_bare b = true ->
      update_one (E:=User) tbl e w
      = (Raise OperationalError,
         left_open (update_user_by_uuid tbl (a +:+ String "'" b))
           [user_name_ e; email_ e; last_login_ip_ e; user_type_ e] w)).
Proof.
  destruct e as [u name em ip ty].
  cbn [entity_uuid_ user_name_ email_ last_login_ip_ user_type_].
  assert (Hshape : forall id,
    update_one (E:=User) tbl (mkUser (VStr id) name em ip ty) w
    = (_ <- create_connection ;;
       cr <- execute (update_user_by_uuid tbl id) [name; em; ip; ty] ;;
       _ <- commit ;; _ <- close ;;
       fetch_one_by_uuid (E:=User) tbl (VStr id)) w) by reflexivity.
  split.
  - intros id -> Ht Hid Hno Hself. rewrite Hshape.
    apply (failing_statement _ _
             (fun _ => _ <- commit ;; _ <- close ;;
                       fetch_one_by_uuid (E:=User) tbl (VStr id))).
    eapply execute_refused;
      [reflexivity | now apply parse_update_user_by_uuid|].
    apply (run_missing_table _ _ _ tbl Hno Hself).
    right. exists "uuid", (OText id).
    split; [reflexivity|]. split; [discriminate|].
    right. right. eexists. split; [|reflexivity]. reflexivity.
  - intros a b -> Ht Ha Hb. rewrite Hshape.
    destruct (quote_in_update tbl a b Ht Ha Hb) as [Hn Hu].
    apply (failing_statement _ _
             (fun _ => _ <- commit ;; _ <- close ;;
                       fetch_one_by_uuid (E:=User) tbl
                         (VStr (a +:+ String "'" b)))).
    now apply (execute_unterminated _ _ (store w)).
Qed.

(** X12: a stored row that the mapper refuses cannot be deleted through
    the repository. When the first row that carries the id fails to map,
    [fetch_one_by_uuid] raises the mapper's error after it has closed its
    connection, and both deletes raise the same error without sending
    their statement: the store is as before. *)
Theorem X12_unmappable_row_blocks_delete {E} `{Entity E} `{RepoMapper E}
    (tbl id : string) (rows : list row) (r : row) (x : exn) (w : world) :
  sql_identifier tbl = true -> sql_plain id = true ->
  store w !! tbl = Some rows ->
  head (List.filter (has_uuid id) rows) = Some r ->
  map_from_repo (row_record r) = Raise x ->
  fetch_one_by_uuid tbl (VStr id) w = (Raise x, after_fetch tbl id w)
  /\ soft_delete_one_by_uuid tbl (VStr id) w = (Raise x, after_fetch tbl id w)
  /\ delete_one_by_uuid tbl (VStr id) w = (Raise x, after_fetch tbl id w)
  /\ store (after_fetch tbl id w) = store w.
Proof.
  intros Ht Hid Hrows Hhead Hmap.
  assert (Hfetch : fetch_one_by_uuid tbl (VStr id) w
                   = (Raise x, after_fetch tbl id w)).
  { rewrite (fetch_one_by_uuid_spec tbl id rows w Ht Hid Hrows).
    destruct (List.filter (has_uuid id) rows) as [|r' rest];
      [discriminate|].
    injection Hhead as ->. now rewrite Hmap. }
  split; [exact Hfetch|].
  split; [unfold soft_delete_one_by_uuid, bind; now rewrite Hfetch|].
  split; [unfold delete_one_by_uuid, bind; now rewrite Hfetch|].
  reflexivity.
Qed.

(** *** The deletes and the update, when the id is found *)

Lemma fetch_found {E} `{Entity E} `{RepoMapper E} tbl id rows r e w :
  sql_identifier tbl = true -> sql_plain id = true ->
  store w !! tbl = Some rows ->
  head (List.filter (has_uuid id) rows) = Some r ->
  map_from_repo (row_record r) = Ok e ->
  fetch_one_by_uuid tbl (VStr id) w = (Ok (Some e), after_fetch tbl id w).
Proof.
  intros Ht Hid Hrows Hhead Hmap.
  rewrite (fetch_one_by_uuid_spec tbl id rows w Ht Hid Hrows).
  destruct (List.filter (has_uuid id) rows) as [|r' rest]; [discriminate|].
  injection Hhead as ->. now rewrite Hmap.
Qed.

Lemma fetch_absent {E} `{Entity E} `{RepoMapper E} tbl id rows w :
  sql_identifier tbl = true -> sql_plain id = true ->
  store w !! tbl = Some rows ->
  List.filter (has_uuid id) rows = [] ->
  fetch_one_by_uuid tbl (VStr id) w = (Ok None, after_fetch tbl id w).
Proof.
  intros Ht Hid Hrows Hno.
  rewrite (fetch_one_by_uuid_spec tbl id rows w Ht Hid Hrows).
  now rewrite Hno.
Qed.

Lemma soft_delete_found {E} `{Entity E} `{RepoMapper E} tbl id rows r e w :
  sql_identifier tbl = true -> sql_plain id = true ->
  store w !! tbl = Some rows ->
  head (List.filter (has_uuid id) rows) = Some r ->
  map_from_repo (row_record r) = Ok e ->
  soft_delete_one_by_uuid tbl (VStr id) w
  = (Ok (Some e),
     mkWorld (<[tbl := soft_deleted_rows id rows]> (store w)) None
       (log w ++ [EvConnect; EvExecute (select_by_uuid tbl id) []; EvClose;
                  EvConnect; EvExecute (soft_delete_by_uuid tbl id) [];
                  EvCommit; EvClose])).
Proof.
  intros Ht Hid Hrows Hhead Hmap.
  unfold soft_delete_one_by_uuid. unfold bind at 1.
  rewrite (fetch_found tbl id rows r e w Ht Hid Hrows Hhead Hmap).
  cbn [py_str].
  change ("UPDATE " +:+ tbl +:+ " SET deleted = 1 WHERE uuid = '" +:+ id +:+ "'")
    with (soft_delete_by_uuid tbl id).
  erewrite mutation_phase;
    [|now apply parse_soft_delete_by_uuid
     |exact (run_soft_delete_by_uuid _ _ _ _ Hrows)].
  unfold ret, after_fetch, soft_deleted_rows. cbn [store log].
  now rewrite <- !app_assoc.
Qed.

Lemma delete_found {E} `{Entity E} `{RepoMapper E} tbl id rows r e w :
  sql_identifier tbl = true -> sql_plain id = true ->
  store w !! tbl = Some rows ->
  head (List.filter (has_uuid id) rows) = Some r ->
  map_from_repo (row_record r) = Ok e ->
  delete_one_by_uuid tbl (VStr id) w
  = (Ok (Some e),
     mkWorld (<[tbl := hard_deleted_rows id rows]> (store w)) None
       (log w ++ [EvConnect; EvExecute (select_by_uuid tbl id) []; EvClose;
                  EvConnect; EvExecute (delete_by_uuid tbl id) [];
                  EvCommit; EvClose])).
Proof.
  intros Ht Hid Hrows Hhead Hmap.
  unfold delete_one_by_uuid. unfold bind at 1.
  rewrite (fetch_found tbl id rows r e w Ht Hid Hrows Hhead Hmap).
  cbn [py_str].
  change ("DELETE FROM " +:+ tbl +:+ " Where uuid = '" +:+ id +:+ "'")
    with (delete_by_uuid tbl id).
  erewrite mutation_phase;
    [|now apply parse_delete_by_uuid
     |exact (run_delete_by_uuid _ _ _ _ Hrows)].
  unfold ret, after_fetch, hard_deleted_rows. cbn [store log].
  now rewrite <- !app_assoc.
Qed.

Lemma update_one_run tbl id name em ip ty rows w :
  sql_identifier tbl = true -> sql_plain id = true ->
  store w !! tbl = Some rows ->
  forallb bindable [name; em; ip; ty] = true ->
  let e := mkUser (VStr id) name em ip ty in
  update_one (E:=User) tbl e w
  = (match List.filter (has_uuid id) (updated_rows e id rows) with
     | [] => Ok None
     | r :: _ => u <~ user_of_row r ;; Ok (Some u)
     end,
     mkWorld (<[tbl := updated_rows e id rows]> (store w)) None
       (log w ++ [EvConnect;
                  EvExecute (update_user_by_uuid tbl id) [name; em; ip; ty];
                  EvCommit; EvClose;
                  EvConnect; EvExecute (select_by_uuid tbl id) []; EvClose])).
Proof.
  intros Ht Hid Hrows Hb e.
  change (update_one (E:=User) tbl e w)
    with ((_ <- create_connection ;;
           _ <- execute (update_user_by_uuid tbl id) [name; em; ip; ty] ;;
           _ <- commit ;; _ <- close ;;
           fetch_one_by_uuid (E:=User) tbl (VStr id)) w).
  erewrite mutation_phase;
    [|now apply parse_update_user_by_uuid
     |exact (run_update_user_by_uuid _ _ _ _ _ _ _ _ Hrows Hb)].
  erewrite fetch_one_by_uuid_spec;
    [|exact Ht|exact Hid|cbn [store]; apply lookup_insert_eq].
  unfold after_fetch. cbn [store log]. rewrite <- !app_assoc.
  reflexivity.
Qed.

Lemma map_outcome_rows {E} `{RepoMapper E} (rows : list row) :
  map_outcome map_from_repo (map row_record rows)
  = map_outcome (fun r => map_from_repo (row_record r)) rows.
Proof.
  induction rows as [|r rows IH]; [reflexivity|].
  cbn [map map_outcome]. now rewrite IH.
Qed.

Lemma filter_soft_deleted id rows :
  List.filter (has_uuid id) (soft_deleted_rows id rows)
  = map mark_deleted (List.filter (has_uuid id) rows).
Proof.
  unfold soft_deleted_rows.
  induction rows as [|a rows IH]; [reflexivity|].
  cbn [map List.filter]. destruct (has_uuid id a) eqn:Ea.
  - change (has_uuid id (mark_deleted a)) with (has_uuid id a).
    rewrite Ea. cbn [map]. now rewrite IH.
  - now rewrite Ea.
Qed.

Lemma soft_deleted_twice id rows :
  soft_deleted_rows id (soft_deleted_rows id rows) = soft_deleted_rows id rows.
Proof.
  unfold soft_deleted_rows. rewrite List.map_map. apply List.map_ext.
  intros a. destruct (has_uuid id a) eqn:Ea.
  - change (has_uuid id (mark_deleted a)) with (has_uuid id a).
    now rewrite Ea.
  - now rewrite Ea.
Qed.

Lemma visible_after_soft_delete id rows :
  List.filter not_deleted (soft_deleted_rows id rows)
  = List.filter (fun x => not_deleted x && negb (has_uuid id x)) rows.
Proof.
  unfold soft_deleted_rows.
  induction rows as [|a rows IH]; [reflexivity|].
  cbn [map List.filter]. rewrite IH.
  destruct (has_uuid id a); cbn [negb].
  - change (not_deleted (mark_deleted a)) with false.
    now rewrite andb_false_r.
  - now rewrite andb_true_r.
Qed.

(** X13: a soft-deleted entity is hidden from [fetch_all()] only. After
    [soft_delete_one_by_uuid] has found and flagged an id, [fetch_all()]
    lists the rows that were visible before and carry another id, while
    [fetch_one_by_uuid] still returns the entity, and a second soft delete
    returns it again and leaves the store as it is. *)
Theorem X13_soft_deleted_still_fetched (tbl id : string)
    (rows : list row) (r : row) (e : User) (w : world) :
  sql_identifier tbl = true -> sql_plain id = true ->
  store w !! tbl = Some rows ->
  head (List.filter (has_uuid id) rows) = Some r ->
  user_of_row r = Ok e ->
  let w1 := snd (soft_delete_one_by_uuid (E:=User) tbl (VStr id) w) in
  fst (fetch_one_by_uuid (E:=User) tbl (VStr id) w1) = Ok (Some e)
  /\ fst (soft_delete_one_by_uuid (E:=User) tbl (VStr id) w1) = Ok (Some e)
  /\ store (snd (soft_delete_one_by_uuid (E:=User) tbl (VStr id) w1))
     = store w1
  /\ fst (fetch_all (E:=User) tbl false w1)
     = map_outcome user_of_row
         (List.filter (fun x => not_deleted x && negb (has_uuid id x)) rows)
  /\ fst (fetch_all (E:=User) tbl true w1)
     = map_outcome user_of_row (soft_deleted_rows id rows).
Proof.
  intros Ht Hid Hrows Hhead Hmap w1. subst w1.
  change (map_from_repo (E:=User) (row_record r) = Ok e) in Hmap.
  rewrite (soft_delete_found (E:=User) tbl id rows r e w Ht Hid Hrows Hhead Hmap).
  cbn [snd].
  set (w1 := mkWorld _ _ _).
  assert (Hrows1 : store w1 !! tbl = Some (soft_deleted_rows id rows))
    by (subst w1; cbn [store]; apply lookup_insert_eq).
  assert (Hhead1 : head (List.filter (has_uuid id) (soft_deleted_rows id rows))
                   = Some (mark_deleted r)).
  { rewrite filter_soft_deleted.
    destruct (List.filter (has_uuid id) rows); [discriminate|].
    now injection Hhead as ->. }
  assert (Hmap1 : map_from_repo (E:=User) (row_record (mark_deleted r)) = Ok e)
    by exact Hmap.
  split; [now rewrite (fetch_found (E:=User) tbl id _ _ e w1 Ht Hid Hrows1
                         Hhead1 Hmap1)|].
  rewrite (soft_delete_found (E:=User) tbl id _ _ e w1 Ht Hid Hrows1 Hhead1
             Hmap1).
  split; [reflexivity|]. split.
  - cbn [snd store]. rewrite soft_deleted_twice. subst w1. cbn [store].
    now rewrite insert_insert_eq.
  - rewrite !(fetch_all_spec (E:=User) tbl _ _ w1 Ht Hrows1). cbn [fst scanned].
    rewrite visible_after_soft_delete, !map_outcome_rows. now split.
Qed.

Lemma delete_absent {E} `{Entity E} `{RepoMapper E} tbl id rows w :
  sql_identifier tbl = true -> sql_plain id = true ->
  store w !! tbl = Some rows ->
  List.filter (has_uuid id) rows = [] ->
  delete_one_by_uuid tbl (VStr id) w = (Ok None, after_fetch tbl id w).
Proof.
  intros Ht Hid Hrows Hno. unfold delete_one_by_uuid, bind.
  now rewrite (fetch_absent tbl id rows w Ht Hid Hrows Hno).
Qed.

(** X14: a hard-deleted id is gone. After [delete_one_by_uuid] has found
    and removed an id, a second delete of it returns none and changes
    nothing, and [fetch_all], with or without the deleted rows, lists what
    it would have listed of the other rows. *)
Theorem X14_deleted_is_gone {E} `{Entity E} `{RepoMapper E}
    (tbl id : string) (rows : list row) (r : row) (e : E) (w : world) :
  sql_identifier tbl = true -> sql_plain id = true ->
  store w !! tbl = Some rows ->
  head (List.filter (has_uuid id) rows) = Some r ->
  map_from_repo (row_record r) = Ok e ->
  let w1 := snd (delete_one_by_uuid tbl (VStr id) w) in
  fst (delete_one_by_uuid tbl (VStr id) w1) = Ok None
  /\ store (snd (delete_one_by_uuid tbl (VStr id) w1)) = store w1
  /\ (forall b,
      fst (fetch_all tbl b w1)
      = map_outcome (fun x => map_from_repo (row_record x))
          (scanned b (other_rows id rows))).
Proof.
  intros Ht Hid Hrows Hhead Hmap w1. subst w1.
  rewrite (delete_found tbl id rows r e w Ht Hid Hrows Hhead Hmap).
  cbn [snd]. set (w1 := mkWorld _ _ _).
  assert (Hrows1 : store w1 !! tbl = Some (hard_deleted_rows id rows))
    by (subst w1; cbn [store]; apply lookup_insert_eq).
  rewrite (delete_absent tbl id _ w1 Ht Hid Hrows1
             (fetch_after_delete tbl id rows w)).
  split; [reflexivity|]. split; [reflexivity|].
  intros b. rewrite (fetch_all_spec tbl b _ w1 Ht Hrows1). cbn [fst].
  now rewrite map_outcome_rows.
Qed.

Lemma head_filter_holds {A} (f : A -> bool) l a :
  head (List.filter f l) = Some a -> f a = true.
Proof.
  induction l as [|x l IH]; [discriminate|]. cbn [List.filter].
  destruct (f x) eqn:Ex; [|exact IH]. now intros [= <-].
Qed.

Lemma filter_updated e id rows :
  List.filter (has_uuid id) (updated_rows e id rows)
  = map (row_of_user e) (List.filter (has_uuid id) rows).
Proof.
  unfold updated_rows.
  induction rows as [|a rows IH]; [reflexivity|].
  cbn [map List.filter]. destruct (has_uuid id a) eqn:Ea.
  - change (has_uuid id (row_of_user e a)) with (has_uuid id a).
    rewrite Ea. cbn [map]. now rewrite IH.
  - now rewrite Ea.
Qed.

(** X15: [update_one] returns what it wrote. For a valid user whose fields
    are strings and whose type is an [int], and whose id some row carries,
    the call returns that very user, read back from the store, and a
    later [fetch_one_by_uuid] returns it too. *)
Theorem X15_update_one_returns_the_user (tbl id : string)
    (rows : list row) (r : row) (e : User) (w : world) :
  sql_identifier tbl = true -> sql_plain id = true ->
  store w !! tbl = Some rows ->
  head (List.filter (has_uuid id) rows) = Some r ->
  entity_uuid_ e = VStr id -> typed_user e -> valid_user e ->
  fst (update_one (E:=User) tbl e w) = Ok (Some e)
  /\ store (snd (update_one (E:=User) tbl e w))
     = <[tbl := updated_rows e id rows]> (store w)
  /\ fst (fetch_one_by_uuid (E:=User) tbl (VStr id)
            (snd (update_one (E:=User) tbl e w))) = Ok (Some e).
Proof.
  intros Ht Hid Hrows Hhead He Htyped (Hve & Hvi & Hvt).
  destruct e as [u name em ip ty]. cbn in He. subst u.
  destruct Htyped as (_ & [sn Hn] & [se Hem] & [si Hip] & [z Hty]).
  cbn [user_name_ email_ last_login_ip_ user_type_] in *. subst.
  set (e := mkUser (VStr id) (VStr sn) (VStr se) (VStr si) (VInt z)).
  assert (Hback : user_of_row (row_of_user e r) = Ok e).
  { apply head_filter_holds in Hhead. apply has_uuid_iff in Hhead.
    unfold user_of_row, User_map_from_repo. cbn. rewrite Hhead.
    now apply User_init_ok. }
  assert (Hhead' : head (List.filter (has_uuid id) (updated_rows e id rows))
                   = Some (row_of_user e r)).
  { rewrite filter_updated.
    destruct (List.filter (has_uuid id) rows); [discriminate|].
    now injection Hhead as ->. }
  assert (Hb : forallb bindable [VStr sn; VStr se; VStr si; VInt z] = true).
  { cbn [forallb bindable andb]. unfold int64. cbn [user_type_valid] in Hvt.
    rewrite andb_true_r. apply andb_true_iff.
    split; [apply Z.leb_le|apply Z.ltb_lt]; lia. }
  pose proof (update_one_run tbl id (VStr sn) (VStr se) (VStr si) (VInt z)
                rows w Ht Hid Hrows Hb) as Hrun.
  cbv zeta in Hrun. fold e in Hrun. rewrite Hrun. cbn [fst snd store].
  split; [|split; [reflexivity|]].
  - destruct (List.filter (has_uuid id) (updated_rows e id rows));
      [discriminate|].
    injection Hhead' as ->. now rewrite Hback.
  - erewrite (fetch_found (E:=User) tbl id (updated_rows e id rows)
                (row_of_user e r) e);
      [reflexivity|exact Ht|exact Hid|cbn [store]; apply lookup_insert_eq
      |exact Hhead'|exact Hback].
Qed.

Lemma other_rows_soft id rows :
  other_rows id (soft_deleted_rows id rows) = other_rows id rows.
Proof.
  unfold other_rows, soft_deleted_rows.
  induction rows as [|a rows IH]; [reflexivity|].
  cbn [map List.filter]. destruct (has_uuid id a) eqn:Ea.
  - change (has_uuid id (mark_deleted a)) with (has_uuid id a).
    rewrite Ea. cbn [negb]. exact IH.
  - rewrite Ea. cbn [negb]. now rewrite IH.
Qed.

Lemma other_rows_updated e id rows :
  other_rows id (updated_rows e id rows) = other_rows id rows.
Proof.
  unfold other_rows, updated_rows.
  induction rows as [|a rows IH]; [reflexivity|].
  cbn [map List.filter]. destruct (has_uuid id a) eqn:Ea.
  - change (has_uuid id (row_of_user e a)) with (has_uuid id a).
    rewrite Ea. cbn [negb]. exact IH.
  - rewrite Ea. cbn [negb]. now rewrite IH.
Qed.

Lemma other_rows_hard id rows :
  other_rows id (hard_deleted_rows id rows) = other_rows id rows.
Proof.
  unfold other_rows, hard_deleted_rows.
  induction rows as [|a rows IH]; [reflexivity|].
  cbn [List.filter]. destruct (has_uuid id a) eqn:Ea; cbn [negb List.filter].
  - exact IH.
  - rewrite Ea. cbn [negb]. now rewrite IH.
Qed.

(** X16: the three mutations by uuid touch the rows that carry the id and
    nothing else, the update being that of a user whose fields sqlite3
    binds. After a soft delete, a hard delete or an update, every
    other table is as before and the rows of the table that carry another
    id are as before, in the same order; the soft delete and the update
    keep every row in place with its uuid, and the update keeps every
    [deleted] flag, so that it never brings a soft-deleted user back. *)
Theorem X16_mutations_touch_only_the_id (tbl id : string)
    (rows : list row) (r : row) (e u : User) (w : world) :
  sql_identifier tbl = true -> sql_plain id = true ->
  store w !! tbl = Some rows ->
  head (List.filter (has_uuid id) rows) = Some r ->
  user_of_row r = Ok e ->
  entity_uuid_ u = VStr id -> bindable_user u ->
  let mutated (w' : world) :=
    (forall t, t <> tbl -> store w' !! t = store w !! t)
    /\ exists rows', store w' !! tbl = Some rows'
                     /\ other_rows id rows' = other_rows id rows in
  mutated (snd (soft_delete_one_by_uuid (E:=User) tbl (VStr id) w))
  /\ mutated (snd (delete_one_by_uuid (E:=User) tbl (VStr id) w))
  /\ mutated (snd (update_one (E:=User) tbl u w))
  /\ store (snd (soft_delete_one_by_uuid (E:=User) tbl (VStr id) w)) !! tbl
     = Some (soft_deleted_rows id rows)
  /\ map c_uuid (soft_deleted_rows id rows) = map c_uuid rows
  /\ store (snd (update_one (E:=User) tbl u w)) !! tbl
     = Some (updated_rows u id rows)
  /\ map c_uuid (updated_rows u id rows) = map c_uuid rows
  /\ map c_deleted (updated_rows u id rows) = map c_deleted rows.
Proof.
  intros Ht Hid Hrows Hhead Hmap Hu Hb mutated.
  apply bindable_user_params in Hb.
  change (map_from_repo (E:=User) (row_record r) = Ok e) in Hmap.
  destruct u as [uu name em ip ty]. cbn in Hu. subst uu.
  cbn [user_name_ email_ last_login_ip_ user_type_] in Hb.
  rewrite (soft_delete_found (E:=User) tbl id rows r e w Ht Hid Hrows Hhead Hmap).
  rewrite (delete_found (E:=User) tbl id rows r e w Ht Hid Hrows Hhead Hmap).
  rewrite (update_one_run tbl id name em ip ty rows w Ht Hid Hrows Hb).
  cbn [snd store]. unfold mutated. cbn [store].
  repeat split;
    try (intros t Hne; now apply lookup_insert_ne);
    try (eexists; split; [apply lookup_insert_eq|]);
    try apply lookup_insert_eq;
    auto using other_rows_soft, other_rows_hard, other_rows_updated.
  - unfold soft_deleted_rows. rewrite List.map_map. apply List.map_ext.
    intros a. now destruct (has_uuid id a).
  - unfold updated_rows. rewrite List.map_map. apply List.map_ext.
    intros a. now destruct (has_uuid id a).
  - unfold updated_rows. rewrite List.map_map. apply List.map_ext.
    intros a. now destruct (has_uuid id a).
Qed.

Lemma record_get_present (data : record) k :
  In k (map fst data) -> exists v, record_get data k = Ok v.
Proof.
  induction data as [|[k0 v0] data IH]; [intros []|].
  cbn [map fst record_get]. destruct (String.eqb k0 k) eqn:Ek.
  - intros _. now exists v0.
  - intros [->|Hin]; [now rewrite String.eqb_refl in Ek|now apply IH].
Qed.

Lemma map_outcome_present (data : record) keys :
  (forall k, In k keys -> In k (map fst data)) ->
  exists ps, map_outcome (record_get data) keys = Ok ps
             /\ length ps = length keys.
Proof.
  induction keys as [|k keys IH]; intros Hin.
  - now exists [].
  - destruct (record_get_present data k (Hin k (or_introl eq_refl)))
      as [v Hv].
    destruct IH as (ps & Hps & Hlen);
      [intros k' Hk'; apply Hin; now right|].
    exists (v :: ps). cbn [map_outcome]. rewrite Hv, Hps. cbn.
    now rewrite Hlen.
Qed.

Lemma fetch_one_log {E} `{Entity E} `{RepoMapper E} tbl v w :
  exists evs, log (snd (fetch_one_by_uuid tbl v w)) = log w ++ evs.
Proof.
  unfold fetch_one_by_uuid.
  match goal with
  | |- context [execute ?q []] => after_connect_execute q w r w1 Hs Hl
  end.
  destruct r as [cr|x]; unfold close, ret, lift.
  - destruct cr as [|[|c0 r0] rest]; cbn [fetchone head falsy];
      [| |destruct (map_from_repo _)];
      cbn [snd log]; rewrite Hl, <- app_assoc; eexists; reflexivity.
  - cbn [snd]. rewrite Hl. eexists; reflexivity.
Qed.

(** X17: whatever the mapper, [update_one] sends one UPDATE with a
    parameter for every placeholder. The SET clause names the keys of the
    mapped record other than [uuid], each looked up in that record without
    a [KeyError], so that the parameters are as many as the [?] marks; and
    the statement, with the entity's id spliced into its text, is the
    first thing executed on the connection the call opens. *)
Theorem X17_update_one_binds_every_placeholder {E} `{Entity E}
    `{RepoMapper E} (tbl : string) (e : E) (w : world) :
  let data := map_to_repo e in
  let keys :=
    List.filter (fun k => negb (String.eqb k "uuid")) (map fst data) in
  exists ps rest,
    map_outcome (record_get data) keys = Ok ps
    /\ length ps = length keys
    /\ ~ In "uuid" keys
    /\ log (snd (update_one tbl e w))
       = log w
         ++ EvConnect
            :: EvExecute
                 ("UPDATE " +:+ tbl +:+ " SET "
                    +:+ String.concat ", "
                          (map (fun key => key +:+ " = ?") keys)
                    +:+ " WHERE uuid = '" +:+ py_str (entity_uuid e)
                    +:+ "'") ps
            :: rest.
Proof.
  intros data keys.
  destruct (map_outcome_present data keys) as (ps & Hps & Hlen).
  { intros k Hk. apply filter_In in Hk. tauto. }
  exists ps.
  assert (Hno : ~ In "uuid" keys).
  { intros Hin. apply filter_In in Hin. destruct Hin as [_ Hin].
    now rewrite String.eqb_refl in Hin. }
  unfold update_one. fold data. fold keys.
  unfold bind. cbn [create_connection]. unfold lift. rewrite Hps.
  match goal with
  | |- context [execute ?q ps ?w0] =>
      pose proof (execute_log q ps w0) as Hl;
      destruct (execute q ps w0) as [[cr|x] w1]
  end; cbn [snd log] in Hl.
  - unfold commit, emit.
    destruct (session w1) as [db|]; cbn [close store log session].
    + match goal with
      | |- context [fetch_one_by_uuid tbl ?v ?w2] =>
          destruct (fetch_one_log tbl v w2) as [evs Hf]
      end.
      cbn [log] in Hf. rewrite Hl in Hf.
      eexists. split; [reflexivity|]. split; [exact Hlen|].
      split; [exact Hno|]. rewrite Hl, Hf.
      repeat rewrite <- app_assoc. cbn [app]. reflexivity.
    + eexists. split; [reflexivity|]. split; [exact Hlen|].
      split; [exact Hno|]. cbn [snd log]. rewrite Hl.
      repeat rewrite <- app_assoc. cbn [app]. reflexivity.
  - exists []. split; [reflexivity|]. split; [exact Hlen|].
    split; [exact Hno|]. cbn [snd]. rewrite Hl.
    now rewrite <- app_assoc.
Qed.

End RepositoryMore.

(** ** Worked examples, on the sample platform *)

#[local] Existing Instance sample_platform.

(** The statements the unit tests expect. *)
Example test_select_by_uuid :
  select_by_uuid "test_table" "test-uuid"
  = "SELECT * FROM test_table WHERE uuid = 'test-uuid'".
Proof. reflexivity. Qed.

Example test_soft_delete_by_uuid :
  soft_delete_by_uuid "test_table" "test-uuid"
  = "UPDATE test_table SET deleted = 1 WHERE uuid = 'test-uuid'".
Proof. reflexivity. Qed.

Example test_delete_by_uuid :
  delete_by_uuid "test_table" "test-uuid"
  = "DELETE FROM test_table Where uuid = 'test-uuid'".
Proof. reflexivity. Qed.

Example test_select_by_user_type :
  select_by_user_type UserRepository_table 1
  = "SELECT * FROM user WHERE user_type = '1'".
Proof. reflexivity. Qed.

(** The emails of the unit tests, and the newline that [$] lets through. *)
Example test_emails :
  map (Re.match_dollar email_pattern)
    ["john.doe@qt.com"; "lee@example.com"; "invalid"; "a@b"; "@b.c";
     "a b@c.d"; String "a" (String "@" (String "b" (String "." (String "c"
       (String "010" "")))))]
  = [true; true; false; false; false; false; true].
Proof. vm_compute. reflexivity. Qed.

(** An id with a quote character is outside the statements above: it ends
    the literal early, the quote meant to close it opens a literal that is
    never closed, and the lookup raises although a row carries the id. *)
Example quote_in_id :
  let oneil := mkRow (VStr "o'neil") (VStr "O") (VStr "o@example.com")
                 (VStr "192.168.1.9") (VInt 1) (VInt 0) in
  fst (fetch_one_by_uuid (E:=User) "user" (VStr "o'neil")
         (mkWorld {[ "user" := [oneil] ]} None []))
  = Raise OperationalError.
Proof. vm_compute. reflexivity. Qed.

Lemma sample_email_ok : email_matches "lee@example.com".
Proof. apply email_matches_iff. vm_compute. reflexivity. Qed.

Lemma sample_email_bad : ~ email_valid (VStr "invalid").
Proof.
  intros (s & [= <-] & Hm). apply email_matches_iff in Hm.
  vm_compute in Hm. discriminate.
Qed.

(** C2 as worded fails for the name: a value that is not a string is
    stored, no error is raised, and the user has changed. *)
Lemma C2_counterexample :
  ~ user_name_valid (VInt 42)
  /\ set_user_name (VInt 42) user_john
     = (Ok tt, with_user_name (VInt 42) user_john)
  /\ user_name_ (snd (set_user_name (VInt 42) user_john)) = VInt 42
  /\ user_name_ (snd (set_user_name (VInt 42) user_john))
     <> user_name_ user_john.
Proof.
  split; [intros [s Hs]; discriminate|].
  split; [reflexivity|]. split; [reflexivity | discriminate].
Qed.

Lemma C2_witness :
  set_user_name (VStr "Jerry") user_john
  = (Ok tt, with_user_name (VStr "Jerry") user_john)
  /\ set_email (VStr "invalid") user_john = (Raise ValueError, user_john)
  /\ set_last_login_ip (VStr "192.invalid") user_john
     = (Raise ValueError, user_john)
  /\ set_user_type (VInt 4) user_john = (Raise ValueError, user_john)
  /\ set_user_type (VInt 2) user_john
     = (Ok tt, with_user_type (VInt 2) user_john).
Proof.
  split; [apply (C2_setters_validate_every_assignment user_john (VStr "Jerry"))|].
  split.
  { apply (C2_setters_validate_every_assignment user_john (VStr "invalid")).
    exact sample_email_bad. }
  split.
  { apply (C2_setters_validate_every_assignment user_john (VStr "192.invalid")).
    unfold last_login_ip_valid. vm_compute. discriminate. }
  split.
  { apply (C2_setters_validate_every_assignment user_john (VInt 4)).
    simpl. lia. }
  apply (C2_setters_validate_every_assignment user_john (VInt 2)).
  simpl. lia.
Defined.

Lemma C3_witness :
  email_matches "lee@example.com"
  /\ set_email (VStr "lee@example.com") user_john
     = (Ok tt, with_email (VStr "lee@example.com") user_john)
  /\ set_email (VStr "invalid") user_john = (Raise ValueError, user_john).
Proof.
  destruct (C3_email_assignment user_john "lee@example.com")
    as (_ & Hgood & _ & _).
  destruct (C3_email_assignment user_john "invalid") as (_ & _ & Hbad & Hinv).
  split; [exact sample_email_ok|]. split.
  - apply Hgood. exact sample_email_ok.
  - apply Hbad. exact Hinv.
Defined.

Lemma C4_witness :
  constructed user_john
  /\ User_map_from_repo (User_map_to_repo user_john) = Ok user_john.
Proof.
  assert (Hc : constructed user_john).
  { apply (constructed_init (VStr "test-uuid-1") (VStr "John Doe")
             (VStr "john.doe@example.com") (VStr "192.168.1.1") (VInt 1)).
    vm_compute. reflexivity. }
  split; [exact Hc | exact (proj1 (C4_mapper_round_trip user_john) Hc)].
Defined.

(** The record of [test_map_from_repo]. *)
Lemma C7_witness :
  let r := [ ("uuid", VStr "some-uuid-for-test");
             ("user_name", VStr "Jerry Li");
             ("email", VStr "jerry.li@example.com");
             ("last_login_ip", VStr "192.168.1.1");
             ("user_type", VInt 1) ] in
  User_map_from_repo r
  = Ok (mkUser (VStr "some-uuid-for-test") (VStr "Jerry Li")
          (VStr "jerry.li@example.com") (VStr "192.168.1.1") (VInt 1))
  /\ User_map_from_repo (tail r) = Raise LookupError.
Proof.
  intros r. split.
  - apply (C7_map_from_repo r); try reflexivity.
    split; [|split; [vm_compute; reflexivity | simpl; lia]].
    exists "jerry.li@example.com". split; [reflexivity|].
    apply email_matches_iff. vm_compute. reflexivity.
  - apply (C7_map_from_repo (tail r)).
    exists "uuid". split; [simpl; auto|].
    intros [v Hv]. vm_compute in Hv. discriminate.
Defined.

Lemma C9_witness :
  (1 <= 5 # 2 /\ 5 # 2 <= 3)%Q
  /\ set_user_type (VNum (5 # 2)) user_john
     = (Ok tt, with_user_type (VNum (5 # 2)) user_john)
  /\ set_user_type (VInt 0) user_john = (Raise ValueError, user_john).
Proof.
  assert (Hq : (1 <= 5 # 2 /\ 5 # 2 <= 3)%Q)
    by (split; unfold Qle; simpl; lia).
  split; [exact Hq|]. split.
  - apply (C9_user_type_range_only user_john). exact Hq.
  - apply (C9_user_type_range_only user_john). lia.
Defined.

Lemma no_such_uuid :
  forall r, In r [john; jane] -> c_uuid r <> VStr "non-existing-uuid".
Proof. intros r [<-|[<-|[]]]; discriminate. Qed.

(** C1 as worded fails: on the fixture, deleting an id that no row carries
    returns none, yet the log has grown: the presence check has opened a
    connection and executed a statement. *)
Lemma C1_counterexample :
  (forall r, In r [john; jane] -> c_uuid r <> VStr "non-existing-uuid")
  /\ fst (delete_one_by_uuid (E:=User) "user" (VStr "non-existing-uuid")
            fixture_world) = Ok None
  /\ log (snd (delete_one_by_uuid (E:=User) "user" (VStr "non-existing-uuid")
                 fixture_world))
     = [EvConnect;
        EvExecute "SELECT * FROM user WHERE uuid = 'non-existing-uuid'" [];
        EvClose]
  /\ log (snd (soft_delete_one_by_uuid (E:=User) "user"
                 (VStr "non-existing-uuid") fixture_world))
     = [EvConnect;
        EvExecute "SELECT * FROM user WHERE uuid = 'non-existing-uuid'" [];
        EvClose]
  /\ log (snd (delete_one_by_uuid (E:=User) "user" (VStr "non-existing-uuid")
                 fixture_world))
     <> log fixture_world.
Proof.
  split; [exact no_such_uuid|]. vm_compute. repeat split. discriminate.
Qed.

Lemma C1_witness :
  delete_one_by_uuid (E:=User) "user" (VStr "non-existing-uuid") fixture_world
  = (Ok None,
     mkWorld (store fixture_world) None
       [EvConnect;
        EvExecute (select_by_uuid "user" "non-existing-uuid") [];
        EvClose])
  /\ soft_delete_one_by_uuid (E:=User) "user" (VStr "non-existing-uuid")
       fixture_world
     = (Ok None,
        mkWorld (store fixture_world) None
          [EvConnect;
           EvExecute (select_by_uuid "user" "non-existing-uuid") [];
           EvClose]).
Proof.
  apply (C1_absent_id_only_presence_check "user" "non-existing-uuid"
           [john; jane] fixture_world).
  - vm_compute. reflexivity.
  - vm_compute. reflexivity.
  - vm_compute. reflexivity.
  - exact no_such_uuid.
Defined.




Lemma C8_witness :
  fst (fetch_users_by_user_type (E:=User) "user" (VInt 1) fixture_world)
  = Ok [user_john; user_jane]
  /\ fst (fetch_users_by_user_type (E:=User) "user" (VInt 2) fixture_world)
     = Ok [].
Proof.
  split.
  - apply (C8_fetch_users_by_user_type "user" 1 [john; jane] fixture_world);
      try lia; vm_compute; reflexivity.
  - apply (C8_fetch_users_by_user_type "user" 2 [john; jane] fixture_world);
      try lia; try (vm_compute; reflexivity).
    intros r [<-|[<-|[]]]; reflexivity.
Defined.

(** C8 as worded fails beyond 64 bits: SQLite reads the quoted integer
    2^63 + 1 as the nearest double, 2^63, so that a row whose [user_type]
    is that REAL is selected although it is not the integer asked for, and
    the call raises the mapper's error instead of returning the empty
    list. *)
Lemma C8_counterexample :
  let t := 2 ^ 63 + 1 in
  let odd := mkRow (VStr "test-uuid-3") (VStr "Joe Doe")
               (VStr "joe.doe@example.com") (VStr "192.168.1.3")
               (VNum (inject_Z (2 ^ 63))) (VInt 0) in
  let w := mkWorld {[ "user" := [odd] ]} None [] in
  (forall r, In r [odd] -> has_user_type t r = false)
  /\ fst (fetch_users_by_user_type (E:=User) "user" (VInt t) w)
     = Raise ValueError
  /\ fst (fetch_users_by_user_type (E:=User) "user" (VInt t) w) <> Ok [].
Proof.
  intros t odd w. split.
  - intros r [<-|[]]. vm_compute. reflexivity.
  - assert (Hrun : fst (fetch_users_by_user_type (E:=User) "user" (VInt t) w)
                   = Raise ValueError) by (vm_compute; reflexivity).
    split; [exact Hrun|]. rewrite Hrun. discriminate.
Qed.




(** ** More worked examples *)

Lemma sample_john_valid :
  email_valid (VStr "john.doe@example.com")
  /\ last_login_ip_valid (VStr "192.168.1.1").
Proof.
  split.
  - exists "john.doe@example.com". split; [reflexivity|].
    apply email_matches_iff. vm_compute. reflexivity.
  - vm_compute. reflexivity.
Qed.

Lemma sample_ip_bad : ~ last_login_ip_valid (VStr "192.invalid").
Proof. unfold last_login_ip_valid. vm_compute. discriminate. Qed.

(** The constructor's order: a bad email hides a bad address and a bad
    type, a bad address hides a bad type. *)
Lemma X1_witness :
  User_init (VStr "test-uuid-1") (VStr "John Doe")
    (VStr "john.doe@example.com") (VStr "192.168.1.1") (VInt 1)
  = Ok user_john
  /\ User_init (VStr "u") (VStr "n") (VInt 5) (VStr "192.invalid") (VStr "x")
     = Raise TypeError
  /\ User_init (VStr "u") (VStr "n") (VStr "john.doe@example.com")
       (VStr "192.invalid") (VStr "x")
     = Raise ValueError
  /\ User_init (VStr "u") (VStr "n") (VStr "john.doe@example.com")
       (VStr "192.168.1.1") (VStr "x")
     = Raise TypeError.
Proof.
  destruct sample_john_valid as [Hemail Hip].
  destruct (X1_constructor_validates_in_order (VStr "test-uuid-1")
              (VStr "John Doe") (VStr "john.doe@example.com")
              (VStr "192.168.1.1") (VInt 1)) as (Hgood & _).
  destruct (X1_constructor_validates_in_order (VStr "u") (VStr "n") (VInt 5)
              (VStr "192.invalid") (VStr "x")) as (_ & Hemail_first & _).
  destruct (X1_constructor_validates_in_order (VStr "u") (VStr "n")
              (VStr "john.doe@example.com") (VStr "192.invalid") (VStr "x"))
    as (_ & _ & Hip_next & _).
  destruct (X1_constructor_validates_in_order (VStr "u") (VStr "n")
              (VStr "john.doe@example.com") (VStr "192.168.1.1") (VStr "x"))
    as (_ & _ & _ & Htype_last & _).
  split; [apply Hgood; [exact Hemail | exact Hip | simpl; lia]|].
  split; [apply Hemail_first; intros (s & Hs & _); discriminate|].
  split; [apply Hip_next; [exact Hemail | exact sample_ip_bad]|].
  apply Htype_last; [exact Hemail | exact Hip | simpl; tauto].
Defined.

(** A user built by the constructor, then renamed and given a new type. *)
Lemma X2_witness :
  let u := snd (set_user_type (VInt 3)
                  (snd (set_user_name (VInt 42) user_john))) in
  constructed u /\ valid_user u.
Proof.
  intros u.
  assert (Hc : constructed u).
  { apply constructed_set_type, constructed_set_name.
    apply (constructed_init (VStr "test-uuid-1") (VStr "John Doe")
             (VStr "john.doe@example.com") (VStr "192.168.1.1") (VInt 1)).
    vm_compute. reflexivity. }
  split; [exact Hc | exact (X2_constructed_users_stay_valid u Hc)].
Defined.

Lemma X3_witness :
  count_char "@" "lee@example.com" = 1%nat
  /\ count_char " " "lee@example.com" = 0%nat
  /\ (count_char "010" "lee@example.com" <= 1)%nat.
Proof.
  apply (X3_accepted_email_has_one_at_sign user_john "lee@example.com").
  vm_compute. reflexivity.
Defined.

(** [a@b.c] followed by a line feed. *)
Lemma X4_witness :
  let s := String "a" (String "@" (String "b" (String "." (String "c"
             (String "010" ""))))) in
  set_email (VStr s) user_john = (Ok tt, with_email (VStr s) user_john)
  /\ email_ (with_email (VStr s) user_john) = VStr s.
Proof.
  apply (X4_email_with_final_newline user_john "a" "b" "c");
    try discriminate; vm_compute; reflexivity.
Defined.

(** A record with a column the mapper does not read, and the keys in
    another order. *)
Lemma X5_witness :
  let r := [ ("deleted", VInt 0);
             ("user_type", VInt 1);
             ("uuid", VStr "test-uuid-1");
             ("email", VStr "john.doe@example.com");
             ("user_name", VStr "John Doe");
             ("last_login_ip", VStr "192.168.1.1") ] in
  User_map_from_repo r = Ok user_john
  /\ map fst (User_map_to_repo user_john) = User_keys
  /\ User_map_from_repo (User_map_to_repo user_john) = Ok user_john.
Proof.
  intros r.
  assert (Hr : User_map_from_repo r = Ok user_john)
    by (vm_compute; reflexivity).
  destruct (X5_record_round_trip r user_john Hr) as (Hkeys & _ & Hback).
  split; [exact Hr|]. split; [exact Hkeys | exact Hback].
Defined.

(** The fixture with its first row soft-deleted. *)
Lemma X6_witness :
  let w := mkWorld {[ "user" := [mark_deleted john; jane] ]} None [] in
  fst (fetch_all (E:=User) "user" false w) = Ok [user_jane]
  /\ fst (fetch_all (E:=User) "user" true w) = Ok [user_john; user_jane].
Proof.
  intros w.
  assert (Ht : sql_identifier "user" = true) by (vm_compute; reflexivity).
  assert (Hrows : store w !! "user" = Some [mark_deleted john; jane])
    by (vm_compute; reflexivity).
  rewrite (proj1 (X6_fetch_all (E:=User) "user" false _ w Ht Hrows)).
  rewrite (proj1 (X6_fetch_all (E:=User) "user" true _ w Ht Hrows)).
  split; vm_compute; reflexivity.
Defined.

Lemma fixture_no_account : unknown_table (store fixture_world) "account".
Proof.
  intros k [rows Hk]. cbn [fixture_world store] in Hk.
  apply lookup_singleton_Some in Hk as [<- _]. reflexivity.
Qed.

(** The fixture has no table [account]. *)
Lemma X9_witness :
  fst (fetch_all (E:=User) "account" true fixture_world)
  = Raise OperationalError
  /\ fst (delete_one_by_uuid (E:=User) "account" (VStr "test-uuid-1")
            fixture_world)
     = Raise OperationalError
  /\ session (snd (delete_one_by_uuid (E:=User) "account"
                     (VStr "test-uuid-1") fixture_world))
     = Some (store fixture_world).
Proof.
  destruct (X9_missing_table (E:=User) "account" "test-uuid-1" 1 true
              fixture_world)
    as (_ & _ & Hdel & _ & Hall);
    [vm_compute; reflexivity | vm_compute; reflexivity | lia
    |exact fixture_no_account | vm_compute; reflexivity |].
  rewrite Hdel, Hall. repeat split.
Defined.

Lemma X10_witness :
  let oneil := mkRow (VStr "o'neil") (VStr "O") (VStr "o@example.com")
                 (VStr "192.168.1.9") (VInt 1) (VInt 0) in
  let w := mkWorld {[ "user" := [oneil] ]} None [] in
  fst (delete_one_by_uuid (E:=User) "user" (VStr "o'neil") w)
  = Raise OperationalError
  /\ store (snd (delete_one_by_uuid (E:=User) "user" (VStr "o'neil") w))
     = store w.
Proof.
  intros oneil w.
  destruct (X10_quote_in_id (E:=User) "user" "o" "neil" w)
    as (_ & _ & Hdel); try (vm_compute; reflexivity).
  change ("o" +:+ String "'" "neil") with "o'neil" in Hdel.
  rewrite Hdel. split; reflexivity.
Defined.

Lemma X11_witness :
  fst (update_one (E:=User) "account" user_john fixture_world)
  = Raise OperationalError
  /\ fst (update_one (E:=User) "user"
            (mkUser (VStr "o'neil") (VStr "O") (VStr "o@example.com")
               (VStr "192.168.1.9") (VInt 1)) fixture_world)
     = Raise OperationalError.
Proof.
  split.
  - rewrite (proj1 (X11_update_one_failing_statement "account" user_john
                      fixture_world) "test-uuid-1");
      [reflexivity | reflexivity | vm_compute; reflexivity
      |vm_compute; reflexivity | exact fixture_no_account
      |vm_compute; reflexivity].
  - rewrite (proj2 (X11_update_one_failing_statement "user"
                      (mkUser (VStr "o'neil") (VStr "O") (VStr "o@example.com")
                         (VStr "192.168.1.9") (VInt 1)) fixture_world)
               "o" "neil");
      vm_compute; reflexivity.
Defined.

(** A stored row whose email the constructor refuses. *)
Lemma X12_witness :
  let bad := mkRow (VStr "test-uuid-9") (VStr "Nobody") (VStr "invalid")
               (VStr "192.168.1.9") (VInt 1) (VInt 0) in
  let w := mkWorld {[ "user" := [jane; bad] ]} None [] in
  fst (delete_one_by_uuid (E:=User) "user" (VStr "test-uuid-9") w)
  = Raise ValueError
  /\ store (snd (delete_one_by_uuid (E:=User) "user" (VStr "test-uuid-9") w))
     = store w.
Proof.
  intros bad w.
  destruct (X12_unmappable_row_blocks_delete (E:=User) "user" "test-uuid-9"
              [jane; bad] bad ValueError w)
    as (_ & _ & Hdel & Hstore); try (vm_compute; reflexivity).
  rewrite Hdel. split; [reflexivity | exact Hstore].
Defined.

Lemma X13_witness :
  let w1 := snd (soft_delete_one_by_uuid (E:=User) "user"
                   (VStr "test-uuid-1") fixture_world) in
  fst (fetch_one_by_uuid (E:=User) "user" (VStr "test-uuid-1") w1)
  = Ok (Some user_john)
  /\ fst (fetch_all (E:=User) "user" false w1) = Ok [user_jane]
  /\ fst (fetch_all (E:=User) "user" true w1) = Ok [user_john; user_jane].
Proof.
  intros w1.
  destruct (X13_soft_deleted_still_fetched "user" "test-uuid-1" [john; jane]
              john user_john fixture_world)
    as (Hone & _ & _ & Hvisible & Hall); try (vm_compute; reflexivity).
  fold w1 in Hone, Hvisible, Hall.
  rewrite Hone, Hvisible, Hall. repeat split.
Defined.

Lemma X14_witness :
  let w1 := snd (delete_one_by_uuid (E:=User) "user" (VStr "test-uuid-1")
                   fixture_world) in
  fst (delete_one_by_uuid (E:=User) "user" (VStr "test-uuid-1") w1) = Ok None
  /\ fst (fetch_all (E:=User) "user" true w1) = Ok [user_jane].
Proof.
  intros w1.
  destruct (X14_deleted_is_gone (E:=User) "user" "test-uuid-1" [john; jane]
              john user_john fixture_world)
    as (Hagain & _ & Hall); try (vm_compute; reflexivity).
  fold w1 in Hagain, Hall.
  rewrite Hagain, (Hall true). split; reflexivity.
Defined.

Lemma X15_witness :
  let e := mkUser (VStr "test-uuid-1") (VStr "Johnny")
             (VStr "johnny@example.com") (VStr "192.168.1.7") (VInt 3) in
  fst (update_one (E:=User) "user" e fixture_world) = Ok (Some e)
  /\ fst (fetch_one_by_uuid (E:=User) "user" (VStr "test-uuid-1")
            (snd (update_one (E:=User) "user" e fixture_world)))
     = Ok (Some e).
Proof.
  intros e.
  assert (Htyped : typed_user e) by (repeat split; eexists; reflexivity).
  assert (Hvalid : valid_user e).
  { split; [|split; [vm_compute; reflexivity | simpl; lia]].
    exists "johnny@example.com". split; [reflexivity|].
    apply email_matches_iff. vm_compute. reflexivity. }
  destruct (X15_update_one_returns_the_user "user" "test-uuid-1" [john; jane]
              john e fixture_world)
    as (Hres & _ & Hback);
    [vm_compute; reflexivity | vm_compute; reflexivity
    |vm_compute; reflexivity | vm_compute; reflexivity
    |reflexivity | exact Htyped | exact Hvalid |].
  split; [exact Hres | exact Hback].
Defined.

(** An update of a soft-deleted user leaves it soft-deleted. *)
Lemma X16_witness :
  let rows := [mark_deleted john; jane] in
  let w := mkWorld {[ "user" := rows ]} None [] in
  let u := mkUser (VStr "test-uuid-1") (VStr "Johnny")
             (VStr "johnny@example.com") (VStr "192.168.1.7") (VInt 3) in
  store (snd (update_one (E:=User) "user" u w)) !! "user"
  = Some (updated_rows u "test-uuid-1" rows)
  /\ map c_deleted (updated_rows u "test-uuid-1" rows) = [VInt 1; VInt 0]
  /\ map c_uuid (updated_rows u "test-uuid-1" rows)
     = [VStr "test-uuid-1"; VStr "test-uuid-2"].
Proof.
  intros rows w u.
  assert (Hb : bindable_user u) by (repeat split; vm_compute; reflexivity).
  destruct (X16_mutations_touch_only_the_id "user" "test-uuid-1" rows
              (mark_deleted john) user_john u w)
    as (_ & _ & _ & _ & _ & Hstore & Huuid & Hdeleted);
    [vm_compute; reflexivity | vm_compute; reflexivity
    |vm_compute; reflexivity | vm_compute; reflexivity
    |vm_compute; reflexivity | reflexivity | exact Hb |].
  split; [exact Hstore|]. rewrite Hdeleted, Huuid. split; reflexivity.
Defined.
